(** * ChatTown: the conversation normalizer of [index.tsx]

    A shallow embedding of the data model and of the pure logic of
    [src/index.tsx] (the helper functions [generateSummary] and
    [sanitizeFilename], the normalizer [parseConversations], the upload
    handler, the selection handlers and the bulk export), followed by the
    properties of the specification that are settled against it.

    Conventions of the embedding.
    - A JavaScript string is a [string]; each [ascii] stands for one UTF-16
      code unit of the Latin-1 range (U+0000 to U+00FF).  [length],
      [substring], [toLowerCase], [trim] and the regular expression class
      [\s] are those of ECMAScript restricted to that range.
    - A JavaScript number read from JSON is a canonical rational [Qc]: every
      finite double is one, and the code only tests numbers for truthiness
      (a number is falsy exactly when it is zero) and for the sign of a
      difference, which for doubles is the sign of the exact difference.
    - An optional or nullable field ([x?: T], [T | null]), and a field the
      code tests for presence before use, is an [option].
    - An object used as a map ([Record<string, RawChatNode>]) is the
      association list of its entries in own-property iteration order, the
      order in which [Object.values] visits them. *)

From Stdlib Require Import Ascii String QArith Qcanon.
From stdpp Require Import base decidable option list strings numbers gmap sorting pretty.

Local Open Scope string_scope.
Local Open Scope list_scope.
Local Open Scope nat_scope.

(** ** JavaScript strings *)

Module JsString.

(** [String.prototype.toLowerCase] on one code unit of the Latin-1 range:
    the letters A-Z and the accented capitals U+00C0-U+00DE (the
    multiplication sign U+00D7 apart) move up by 32.
    Outside that range the function of ECMAScript looks at the neighbours of
    a unit (a final sigma); no property below lets it distribute over
    concatenation. *)
Definition toLowerCaseUnit (c : ascii) : ascii :=
  let n := nat_of_ascii c in
  if ((65 <=? n) && (n <=? 90)
      || (192 <=? n) && (n <=? 214)
      || (216 <=? n) && (n <=? 222))%nat
  then ascii_of_nat (n + 32) else c.

Fixpoint toLowerCase (s : string) : string :=
  match s with
  | EmptyString => EmptyString
  | String c s' => String (toLowerCaseUnit c) (toLowerCase s')
  end.

(** The class [\s] (and the white space of [trim]) in the Latin-1 range:
    TAB, LF, VT, FF, CR, SPACE and NO-BREAK SPACE. *)
Definition isWhiteSpace (c : ascii) : bool :=
  let n := nat_of_ascii c in
  ((9 <=? n) && (n <=? 13) || (n =? 32) || (n =? 160))%nat.

(** [s.substring(0, n)]. *)
Definition substring0 (n : nat) (s : string) : string := String.substring 0 n s.

(** Truthiness of a string: every string but the empty one. *)
Definition truthy (s : string) : bool :=
  match s with EmptyString => false | String _ _ => true end.

Fixpoint trimStart (s : string) : string :=
  match s with
  | EmptyString => EmptyString
  | String c s' => if isWhiteSpace c then trimStart s' else s
  end.

(** [String.prototype.trim]: white space removed at both ends. *)
Definition trim (s : string) : string :=
  String.rev (trimStart (String.rev (trimStart s))).

(** [parts.join('')]. *)
Definition join (parts : list string) : string :=
  foldr String.app "" parts.

(** [s.replace(/\s+/g, r)]: every maximal run of white space becomes one
    [r]; [inRun] tells that the previous unit was white space. *)
Fixpoint replaceWhiteSpaceRuns_go (r : string) (inRun : bool) (s : string) : string :=
  match s with
  | EmptyString => EmptyString
  | String c s' =>
      if isWhiteSpace c
      then (if inRun then replaceWhiteSpaceRuns_go r true s'
            else r +:+ replaceWhiteSpaceRuns_go r true s')
      else String c (replaceWhiteSpaceRuns_go r false s')
  end.

Definition replaceWhiteSpaceRuns (r : string) (s : string) : string :=
  replaceWhiteSpaceRuns_go r false s.

(** [s.replace(/[cs]/g, '')] for a character class given by its members. *)
Fixpoint removeUnits (cs : list ascii) (s : string) : string :=
  match s with
  | EmptyString => EmptyString
  | String c s' =>
      if bool_decide (c ∈ cs) then removeUnits cs s'
      else String c (removeUnits cs s')
  end.

(** [s.includes(t)]: [t] occurs in [s] as a contiguous block. *)
Fixpoint includes (t s : string) : bool :=
  String.prefix t s
  || match s with
     | EmptyString => false
     | String _ s' => includes t s'
     end.

(** Truthiness of a possibly missing string. *)
Definition optTruthy (x : option string) : bool :=
  match x with Some s => truthy s | None => false end.

(** [x || d] on a possibly missing string. *)
Definition orElse (x : option string) (d : string) : string :=
  match x with
  | Some s => if truthy s then s else d
  | None => d
  end.

End JsString.

(** ** JavaScript numbers *)

Definition number : Type := Qc.

Module JsNumber.

(** Truthiness of a number: every number but zero. *)
Definition truthy (n : number) : bool := bool_decide (n ≠ 0%Qc).

(** [x || undefined] on an optional number. *)
Definition orUndefined (x : option number) : option number :=
  match x with
  | Some n => if truthy n then Some n else None
  | None => None
  end.

(** [x || 0] on an optional number. *)
Definition orZero (x : option number) : number :=
  match x with
  | Some n => if truthy n then n else 0%Qc
  | None => 0%Qc
  end.

End JsNumber.

(** ** The data model: interfaces of the raw archive

    Index signatures ([[key: string]: any]) and fields the program never
    reads ([author.metadata]) are left out of the records. *)

Module RawChatMessageContent.
Record t : Type := mk {
  content_type : string;
  parts : option (list string);
  text : option string
}.
End RawChatMessageContent.

Module RawChatMessageAuthor.
Record t : Type := mk {
  role : string;
  name : option string
}.
End RawChatMessageAuthor.

Module RawChatMessageMetadata.
Record t : Type := mk {
  is_visually_hidden_from_conversation : option bool
}.
End RawChatMessageMetadata.

Module RawChatMessage.
Record t : Type := mk {
  id : string;
  author : RawChatMessageAuthor.t;
  create_time : option number;
  content : option RawChatMessageContent.t;
  metadata : option RawChatMessageMetadata.t
}.
End RawChatMessage.

Module RawChatNode.
Record t : Type := mk {
  id : string;
  message : option RawChatMessage.t;
  parent : option string;
  children : list string
}.
End RawChatNode.

Module RawConversation.
Record t : Type := mk {
  id : option string;
  title : option string;
  create_time : number;
  update_time : number;
  mapping : option (list (string * option RawChatNode.t));
  current_node : option string
}.
End RawConversation.

(** ** The data model: processed data *)

Module Message.
Record t : Type := mk {
  id : string;
  authorRole : string;
  contentText : string;
  createTime : option number
}.
End Message.

Module ProcessedConversation.
Record t : Type := mk {
  id : string;
  title : string;
  createTime : number;
  updateTime : number;
  messages : list Message.t;
  summary : string;
  originalData : RawConversation.t
}.
End ProcessedConversation.

(** ** Helper functions *)

Definition genericTitles : list string :=
  ["new chat"; "empty chat"; "untitled conversation"].

(** [s.substring(0, n) + (s.length > n ? "..." : "")]. *)
Definition truncate (n : nat) (s : string) : string :=
  JsString.substring0 n s +:+ (if (n <? String.length s)%nat then "..." else "").

(** The predicate of [messages.find(m => m.authorRole === role && m.contentText)]. *)
Definition hasRoleAndText (role : string) (m : Message.t) : bool :=
  bool_decide (Message.authorRole m = role) && JsString.truthy (Message.contentText m).

Definition generateSummary (title : string) (messages : list Message.t) : string :=
  if JsString.truthy title
     && negb (bool_decide (JsString.toLowerCase title ∈ genericTitles))
  then truncate 150 title
  else
    match List.find (hasRoleAndText "user") messages with
    | Some firstUserMessage => truncate 100 (Message.contentText firstUserMessage)
    | None =>
        match List.find (hasRoleAndText "assistant") messages with
        | Some firstAssistantMessage =>
            truncate 100 (Message.contentText firstAssistantMessage)
        | None => if JsString.truthy title then title else "No summary available"
        end
    end.

(** The members of the character class of the second [replace]: slash,
    backslash, question mark, percent, asterisk, colon, vertical bar, double
    quote (code unit 34), less-than and greater-than. *)
Definition unsuitableUnits : list ascii :=
  ["/"; "\"; "?"; "%"; "*"; ":"; "|"; "034"; "<"; ">"]%char.

Definition sanitizeFilename (name : string) : string :=
  if negb (JsString.truthy name) then "untitled_conversation"
  else
    JsString.substring0 100
      (JsString.removeUnits unsuitableUnits
         (JsString.replaceWhiteSpaceRuns "_" name)).

(** ** [Array.prototype.sort]

    ECMAScript requires the sort to be stable and, for a consistent
    comparator, sorted; insertion from the right is the reference
    implementation: an element moves past exactly the elements that the
    comparator puts strictly before it. *)

Section ArraySort.
Context {A : Type} (comparefn : A → A → number).

Fixpoint sortInsert (x : A) (l : list A) : list A :=
  match l with
  | [] => [x]
  | y :: l' =>
      match (comparefn x y ?= 0)%Qc with
      | Gt => y :: sortInsert x l'
      | _ => x :: l
      end
  end.

Definition Array_sort (l : list A) : list A := foldr sortInsert [] l.
End ArraySort.

(** ** The normalizer *)

(** [Object.values(o)]. *)
Definition Object_values {A : Type} (o : list (string * A)) : list A := o.*2.

(** [content.parts || content.text]: an array is truthy even when empty, a
    string only when non-empty. *)
Definition hasPartsOrText (content : RawChatMessageContent.t) : bool :=
  match RawChatMessageContent.parts content with
  | Some _ => true
  | None =>
      match RawChatMessageContent.text content with
      | Some s => JsString.truthy s
      | None => false
      end
  end.

(** [message.metadata?.is_visually_hidden_from_conversation], as a condition. *)
Definition isVisuallyHidden (message : RawChatMessage.t) : bool :=
  match RawChatMessage.metadata message with
  | Some md =>
      match RawChatMessageMetadata.is_visually_hidden_from_conversation md with
      | Some b => b
      | None => false
      end
  | None => false
  end.

(** [content.parts ? content.parts.join('') : (content.text || '')]. *)
Definition textContent (content : RawChatMessageContent.t) : string :=
  match RawChatMessageContent.parts content with
  | Some parts => JsString.join parts
  | None => default "" (RawChatMessageContent.text content)
  end.

(** The message that the callback of [forEach] pushes for a node, if any. *)
Definition nodeMessage (node : option RawChatNode.t) : option Message.t :=
  match node with
  | None => None
  | Some nd =>
      match RawChatNode.message nd with
      | None => None
      | Some message =>
          match RawChatMessage.content message with
          | None => None
          | Some content =>
              if hasPartsOrText content then
                if isVisuallyHidden message then None
                else if bool_decide (JsString.trim (textContent content) = "") then None
                else Some {|
                  Message.id := RawChatMessage.id message;
                  Message.authorRole :=
                    RawChatMessageAuthor.role (RawChatMessage.author message);
                  Message.contentText := textContent content;
                  Message.createTime :=
                    JsNumber.orUndefined (RawChatMessage.create_time message)
                |}
              else None
          end
      end
  end.

(** The callback of [forEach], as a transformer of the array [messages]. *)
Definition visitNode (messages : list Message.t) (node : option RawChatNode.t)
    : list Message.t :=
  match nodeMessage node with
  | Some m => messages ++ [m]
  | None => messages
  end.

(** [Object.values(conv.mapping).forEach(...)] from the empty array. *)
Definition extractMessages (mapping : list (string * option RawChatNode.t))
    : list Message.t :=
  foldl visitNode [] (Object_values mapping).

(** The comparator [(a, b) => (a.createTime || 0) - (b.createTime || 0)]. *)
Definition compareMessages (a b : Message.t) : number :=
  (JsNumber.orZero (Message.createTime a) - JsNumber.orZero (Message.createTime b))%Qc.

(** The callback of [jsonData.map].  A record fails [!conv.id || !conv.mapping]
    when it has a mapping and a non-empty [id]; [None] is the [null] returned
    for a record that is skipped (the warning written to the console is not
    part of the model). *)
Definition processConversation (index : nat) (conv : RawConversation.t)
    : option ProcessedConversation.t :=
  match RawConversation.mapping conv with
  | Some mapping =>
      if JsString.optTruthy (RawConversation.id conv) then
        let messages := Array_sort compareMessages (extractMessages mapping) in
        let title := JsString.orElse (RawConversation.title conv) "Untitled Conversation" in
        Some {|
          ProcessedConversation.id :=
            JsString.orElse (RawConversation.id conv) ("generated-id-" +:+ pretty index);
          ProcessedConversation.title := title;
          ProcessedConversation.createTime := RawConversation.create_time conv;
          ProcessedConversation.updateTime := RawConversation.update_time conv;
          ProcessedConversation.messages := messages;
          ProcessedConversation.summary := generateSummary title messages;
          ProcessedConversation.originalData := conv
        |}
      else None
  | None => None
  end.

(** The value of [JSON.parse]: an array of records, or anything else. *)
Inductive JsonData : Type :=
  | JsonArray (convs : list RawConversation.t)
  | NotAnArray.

(** [jsonData.map(...).filter(Boolean)]. *)
Definition parseArray (convs : list RawConversation.t) : list ProcessedConversation.t :=
  omap (λ x, x) (imap processConversation convs).

(** [inl message] is the thrown [Error(message)]. *)
Definition parseConversations (jsonData : JsonData)
    : string + list ProcessedConversation.t :=
  match jsonData with
  | JsonArray convs => inr (parseArray convs)
  | NotAnArray => inl "Invalid format: Expected an array of conversations."
  end.

(** ** The state of the [App] component and its handlers *)

Module AppState.
Record t : Type := mk {
  rawConversations : list RawConversation.t;
  processedConversations : list ProcessedConversation.t;
  filteredConversations : list ProcessedConversation.t;
  selectedConversationIds : gset string;
  searchTerm : string;
  isLoading : bool;
  error : option string;
  initialCount : nat
}.
End AppState.

Module Stats.
Record t : Type := mk {
  total : nat;
  processed : nat;
  displayed : nat;
  selected : nat
}.
End Stats.

(** The state of the first render: every [useState] at its initial value. *)
Definition initialState : AppState.t :=
  {| AppState.rawConversations := [];
     AppState.processedConversations := [];
     AppState.filteredConversations := [];
     AppState.selectedConversationIds := ∅;
     AppState.searchTerm := "";
     AppState.isLoading := false;
     AppState.error := None;
     AppState.initialCount := 0 |}.

(** The [useMemo] of [stats]. *)
Definition stats (st : AppState.t) : Stats.t :=
  {| Stats.total := AppState.initialCount st;
     Stats.processed := length (AppState.processedConversations st);
     Stats.displayed := length (AppState.filteredConversations st);
     Stats.selected := size (AppState.selectedConversationIds st) |}.

(** The predicate of the filter of the [useEffect]. *)
Definition matchesSearch (lowerSearchTerm : string) (conv : ProcessedConversation.t) : bool :=
  JsString.includes lowerSearchTerm (JsString.toLowerCase (ProcessedConversation.title conv))
  || JsString.includes lowerSearchTerm (JsString.toLowerCase (ProcessedConversation.summary conv))
  || existsb
       (λ msg, JsString.includes lowerSearchTerm (JsString.toLowerCase (Message.contentText msg)))
       (ProcessedConversation.messages conv).

(** The [useEffect] on [searchTerm] and [processedConversations]. *)
Definition filterEffect (st : AppState.t) : AppState.t :=
  let filtered :=
    if negb (JsString.truthy (AppState.searchTerm st))
    then AppState.processedConversations st
    else filter (λ conv, matchesSearch (JsString.toLowerCase (AppState.searchTerm st)) conv)
                (AppState.processedConversations st) in
  {| AppState.rawConversations := AppState.rawConversations st;
     AppState.processedConversations := AppState.processedConversations st;
     AppState.filteredConversations := filtered;
     AppState.selectedConversationIds := AppState.selectedConversationIds st;
     AppState.searchTerm := AppState.searchTerm st;
     AppState.isLoading := AppState.isLoading st;
     AppState.error := AppState.error st;
     AppState.initialCount := AppState.initialCount st |}.

(** [handleFileUpload] up to the start of the read: every derived state is
    cleared, the search term stays. *)
Definition handleFileUpload (st : AppState.t) : AppState.t :=
  {| AppState.rawConversations := [];
     AppState.processedConversations := [];
     AppState.filteredConversations := [];
     AppState.selectedConversationIds := ∅;
     AppState.searchTerm := AppState.searchTerm st;
     AppState.isLoading := true;
     AppState.error := None;
     AppState.initialCount := 0 |}.

(** The [catch] branch of [reader.onload]. *)
Definition failWith (message : string) (st : AppState.t) : AppState.t :=
  {| AppState.rawConversations := AppState.rawConversations st;
     AppState.processedConversations := AppState.processedConversations st;
     AppState.filteredConversations := AppState.filteredConversations st;
     AppState.selectedConversationIds := AppState.selectedConversationIds st;
     AppState.searchTerm := AppState.searchTerm st;
     AppState.isLoading := false;
     AppState.error := Some ("Failed to parse file: " +:+ message);
     AppState.initialCount := AppState.initialCount st |}.

(** The array that [setRawConversations(jsonData)] stores. *)
Definition rawArray (jsonData : JsonData) : list RawConversation.t :=
  match jsonData with
  | JsonArray convs => convs
  | NotAnArray => []
  end.

(** The [try] branch of [reader.onload] once [JSON.parse] has returned; an
    error thrown by [parseConversations] leaves every setter uncalled. *)
Definition onloadParsed (jsonData : JsonData) (st : AppState.t) : AppState.t :=
  match parseConversations jsonData with
  | inr parsed =>
      {| AppState.rawConversations := rawArray jsonData;
         AppState.processedConversations := parsed;
         AppState.filteredConversations := AppState.filteredConversations st;
         AppState.selectedConversationIds := AppState.selectedConversationIds st;
         AppState.searchTerm := AppState.searchTerm st;
         AppState.isLoading := false;
         AppState.error := AppState.error st;
         AppState.initialCount := length parsed |}
  | inl message => failWith message st
  end.

(** A successful upload of an archive already parsed as JSON: the handler,
    the load callback and the effect of the next render. *)
Definition uploadParsed (jsonData : JsonData) (st : AppState.t) : AppState.t :=
  filterEffect (onloadParsed jsonData (handleFileUpload st)).

Definition setSelection (sel : gset string) (st : AppState.t) : AppState.t :=
  {| AppState.rawConversations := AppState.rawConversations st;
     AppState.processedConversations := AppState.processedConversations st;
     AppState.filteredConversations := AppState.filteredConversations st;
     AppState.selectedConversationIds := sel;
     AppState.searchTerm := AppState.searchTerm st;
     AppState.isLoading := AppState.isLoading st;
     AppState.error := AppState.error st;
     AppState.initialCount := AppState.initialCount st |}.

Definition toggleSelection (id : string) (st : AppState.t) : AppState.t :=
  let prev := AppState.selectedConversationIds st in
  setSelection (if bool_decide (id ∈ prev) then prev ∖ {[id]} else prev ∪ {[id]}) st.

Definition handleSelectAllVisible (st : AppState.t) : AppState.t :=
  setSelection
    (foldl (λ newSet conv, newSet ∪ {[ProcessedConversation.id conv]})
           (AppState.selectedConversationIds st)
           (AppState.filteredConversations st))
    st.

Definition handleClearSelection (st : AppState.t) : AppState.t :=
  setSelection ∅ st.

(** ** Bulk export and upload through JSON text

    [JSON.parse] and [JSON.stringify] belong to the platform; they are
    parameters.  [JSON_parse] returns [inl message] for a thrown error. *)

Inductive ExportOutcome : Type :=
  | Alerted (message : string)
  | Downloaded (filename : string) (jsonString : string).

Section Platform.
Variable JSON_parse : string → string + JsonData.
Variable JSON_stringify : list RawConversation.t → string.

Definition exportConversations
    (conversationsToExport : list ProcessedConversation.t) (filename : string)
    : ExportOutcome :=
  if (length conversationsToExport =? 0)%nat
  then Alerted "No conversations to export for this selection."
  else
    let dataToExport := ProcessedConversation.originalData <$> conversationsToExport in
    Downloaded filename (JSON_stringify dataToExport).

Definition handleExportSelected (st : AppState.t) : ExportOutcome :=
  let selected :=
    filter (λ conv, ProcessedConversation.id conv ∈ AppState.selectedConversationIds st)
           (AppState.processedConversations st) in
  exportConversations selected "selected_collection.json".

Definition handleExportUnselected (st : AppState.t) : ExportOutcome :=
  let unselected :=
    filter (λ conv, ProcessedConversation.id conv ∉ AppState.selectedConversationIds st)
           (AppState.processedConversations st) in
  exportConversations unselected "unselected_conversations.json".

(** [reader.onload] on the text of the file. *)
Definition onload (text : string) (st : AppState.t) : AppState.t :=
  match JSON_parse text with
  | inr jsonData => onloadParsed jsonData st
  | inl message => failWith message st
  end.

(** The upload of a file whose read succeeds with [text]. *)
Definition upload (text : string) (st : AppState.t) : AppState.t :=
  filterEffect (onload text (handleFileUpload st)).
End Platform.

(** ** The remaining handlers and the events of the interface *)

(** [setSearchTerm(e.target.value)], the [onChange] of the search box. *)
Definition setSearchTerm (value : string) (st : AppState.t) : AppState.t :=
  {| AppState.rawConversations := AppState.rawConversations st;
     AppState.processedConversations := AppState.processedConversations st;
     AppState.filteredConversations := AppState.filteredConversations st;
     AppState.selectedConversationIds := AppState.selectedConversationIds st;
     AppState.searchTerm := value;
     AppState.isLoading := AppState.isLoading st;
     AppState.error := AppState.error st;
     AppState.initialCount := AppState.initialCount st |}.

(** [reader.onerror]. *)
Definition onerror (st : AppState.t) : AppState.t :=
  {| AppState.rawConversations := AppState.rawConversations st;
     AppState.processedConversations := AppState.processedConversations st;
     AppState.filteredConversations := AppState.filteredConversations st;
     AppState.selectedConversationIds := AppState.selectedConversationIds st;
     AppState.searchTerm := AppState.searchTerm st;
     AppState.isLoading := false;
     AppState.error := Some "Failed to read file.";
     AppState.initialCount := AppState.initialCount st |}.

(** What can happen to the component: a file is chosen, its read completes
    with a text or fails, the search box changes, a check box is toggled, one
    of the two selection buttons is clicked. *)
Inductive Event : Type :=
  | FileChosen
  | FileLoaded (text : string)
  | FileReadFailed
  | SearchChanged (value : string)
  | SelectionToggled (id : string)
  | SelectAllVisibleClicked
  | ClearSelectionClicked.

Section Events.
Variable JSON_parse : string → string + JsonData.

Definition handle (ev : Event) (st : AppState.t) : AppState.t :=
  match ev with
  | FileChosen => handleFileUpload st
  | FileLoaded text => onload JSON_parse text st
  | FileReadFailed => onerror st
  | SearchChanged value => setSearchTerm value st
  | SelectionToggled id => toggleSelection id st
  | SelectAllVisibleClicked => handleSelectAllVisible st
  | ClearSelectionClicked => handleClearSelection st
  end.

(** An event, then the render that follows it with its effect. *)
Definition step (st : AppState.t) (ev : Event) : AppState.t :=
  filterEffect (handle ev st).

Definition run (evs : list Event) (st : AppState.t) : AppState.t :=
  foldl step st evs.
End Events.

(** The file name of [handleExportAsTextFile]:
    [`ChatTown_Obsidian_${sanitizeFilename(conversation.title || conversation.id)}.txt`].
    (The text of that file upper-cases the roles, which leaves the range of
    units of this model; it is not part of the model.) *)
Definition exportFilename (conversation : ProcessedConversation.t) : string :=
  "ChatTown_Obsidian_"
  +:+ sanitizeFilename
        (if JsString.truthy (ProcessedConversation.title conversation)
         then ProcessedConversation.title conversation
         else ProcessedConversation.id conversation)
  +:+ ".txt".

(** ** A small archive, used to run the definitions *)

Module Sample.
Definition textNode (id role : string) (time : option number) (parts : list string)
    (hidden : option bool) (parent : option string) (children : list string)
    : RawChatNode.t :=
  {| RawChatNode.id := id;
     RawChatNode.message := Some {|
       RawChatMessage.id := "m-" +:+ id;
       RawChatMessage.author :=
         {| RawChatMessageAuthor.role := role; RawChatMessageAuthor.name := None |};
       RawChatMessage.create_time := time;
       RawChatMessage.content := Some {|
         RawChatMessageContent.content_type := "text";
         RawChatMessageContent.parts := Some parts;
         RawChatMessageContent.text := None |};
       RawChatMessage.metadata :=
         Some {| RawChatMessageMetadata.is_visually_hidden_from_conversation := hidden |}
     |};
     RawChatNode.parent := parent;
     RawChatNode.children := children |}.

Definition rootNode : RawChatNode.t :=
  {| RawChatNode.id := "root"; RawChatNode.message := None;
     RawChatNode.parent := None; RawChatNode.children := ["a"] |}.

(** A hidden system prompt. *)
Definition nodeA : RawChatNode.t :=
  textNode "a" "system" None ["You are helpful."] (Some true) (Some "root") ["b"].

Definition nodeB : RawChatNode.t :=
  textNode "b" "user" (Some (Qc_of_Z 10)) ["How are you?"] None (Some "a") ["c"].

Definition nodeC : RawChatNode.t :=
  textNode "c" "assistant" (Some (Qc_of_Z 20)) ["Fine, "; "thanks."] None (Some "b") [].

(** A message whose [create_time] is 0. *)
Definition nodeD : RawChatNode.t :=
  textNode "d" "user" (Some (Qc_of_Z 0)) ["First of all"] None (Some "root") [].

Definition nodeE : RawChatNode.t :=
  textNode "e" "tool" None ["log line"] (Some false) (Some "root") [].

(** A message of white space only. *)
Definition nodeF : RawChatNode.t :=
  textNode "f" "user" (Some (Qc_of_Z 10)) ["   "] None (Some "root") [].

Definition mapping1 : list (string * option RawChatNode.t) :=
  [ ("root", Some rootNode); ("c", Some nodeC); ("a", Some nodeA); ("b", Some nodeB);
    ("d", Some nodeD); ("e", Some nodeE); ("f", Some nodeF) ].

Definition conv1 : RawConversation.t :=
  {| RawConversation.id := Some "conv-1";
     RawConversation.title := Some "New chat";
     RawConversation.create_time := Qc_of_Z 5;
     RawConversation.update_time := Qc_of_Z 30;
     RawConversation.mapping := Some mapping1;
     RawConversation.current_node := Some "c" |}.

(** A record without an [id]: skipped. *)
Definition conv2 : RawConversation.t :=
  {| RawConversation.id := None;
     RawConversation.title := Some "Lost";
     RawConversation.create_time := Qc_of_Z 6;
     RawConversation.update_time := Qc_of_Z 7;
     RawConversation.mapping := Some [];
     RawConversation.current_node := None |}.

(** A record without a title. *)
Definition conv3 : RawConversation.t :=
  {| RawConversation.id := Some "conv-3";
     RawConversation.title := None;
     RawConversation.create_time := Qc_of_Z 8;
     RawConversation.update_time := Qc_of_Z 9;
     RawConversation.mapping := Some [("root", Some rootNode); ("b", Some nodeB)];
     RawConversation.current_node := None |}.

(** What the normalizer makes of [conv3]. *)
Definition processed3 : ProcessedConversation.t :=
  let messages := Array_sort compareMessages (extractMessages [("b", Some nodeB)]) in
  {| ProcessedConversation.id := "conv-3";
     ProcessedConversation.title := "Untitled Conversation";
     ProcessedConversation.createTime := Qc_of_Z 8;
     ProcessedConversation.updateTime := Qc_of_Z 9;
     ProcessedConversation.messages := messages;
     ProcessedConversation.summary := "How are you?";
     ProcessedConversation.originalData := conv3 |}.

Definition archive : list RawConversation.t := [conv1; conv2; conv3].

(** A stand-in for the platform's JSON on the two arrays that the
    examples export: the empty one and [[conv1; conv3]]. *)
Definition stringify (data : list RawConversation.t) : string :=
  match data with
  | [] => "[]"
  | _ :: _ => "[conv-1, conv-3]"
  end.


(** [conv1] with another tree over the same nodes: [c] becomes a second
    child of [a], and [d], [e] and [f] hang below [c]. *)
Definition relink (parent : option string) (children : list string)
    (nd : RawChatNode.t) : RawChatNode.t :=
  {| RawChatNode.id := RawChatNode.id nd;
     RawChatNode.message := RawChatNode.message nd;
     RawChatNode.parent := parent;
     RawChatNode.children := children |}.

Definition conv1Relinked : RawConversation.t :=
  {| RawConversation.id := Some "conv-1";
     RawConversation.title := Some "New chat";
     RawConversation.create_time := Qc_of_Z 5;
     RawConversation.update_time := Qc_of_Z 30;
     RawConversation.mapping := Some
       [ ("root", Some rootNode);
         ("c", Some (relink (Some "a") ["d"; "e"; "f"] nodeC));
         ("a", Some (relink (Some "root") ["b"; "c"] nodeA));
         ("b", Some (relink (Some "a") [] nodeB));
         ("d", Some (relink (Some "c") [] nodeD));
         ("e", Some (relink (Some "c") [] nodeE));
         ("f", Some (relink (Some "c") [] nodeF)) ];
     RawConversation.current_node := Some "c" |}.

(** What the normalizer makes of [conv1]. *)
Definition processed1 : ProcessedConversation.t :=
  let messages := Array_sort compareMessages (extractMessages mapping1) in
  {| ProcessedConversation.id := "conv-1";
     ProcessedConversation.title := "New chat";
     ProcessedConversation.createTime := Qc_of_Z 5;
     ProcessedConversation.updateTime := Qc_of_Z 30;
     ProcessedConversation.messages := messages;
     ProcessedConversation.summary := generateSummary "New chat" messages;
     ProcessedConversation.originalData := conv1 |}.

(** A node whose content has an empty [parts] beside a [text]. *)
Definition emptyPartsContent : RawChatMessageContent.t :=
  {| RawChatMessageContent.content_type := "text";
     RawChatMessageContent.parts := Some [];
     RawChatMessageContent.text := Some "ignored" |}.

Definition emptyPartsMessage : RawChatMessage.t :=
  {| RawChatMessage.id := "m-g";
     RawChatMessage.author :=
       {| RawChatMessageAuthor.role := "user"; RawChatMessageAuthor.name := None |};
     RawChatMessage.create_time := None;
     RawChatMessage.content := Some emptyPartsContent;
     RawChatMessage.metadata := None |}.

Definition emptyPartsNode : RawChatNode.t :=
  {| RawChatNode.id := "g";
     RawChatNode.message := Some emptyPartsMessage;
     RawChatNode.parent := None;
     RawChatNode.children := [] |}.
(** The messages that the nodes of [mapping1] push, in mapping order, and
    the same messages in order of time. *)
Definition message (id role text : string) (time : option number) : Message.t :=
  {| Message.id := id; Message.authorRole := role;
     Message.contentText := text; Message.createTime := time |}.

Definition messageB : Message.t := message "m-b" "user" "How are you?" (Some (Qc_of_Z 10)).
Definition messageC : Message.t :=
  message "m-c" "assistant" "Fine, thanks." (Some (Qc_of_Z 20)).
Definition messageD : Message.t := message "m-d" "user" "First of all" None.
Definition messageE : Message.t := message "m-e" "tool" "log line" None.

Definition pushed1 : list Message.t := [messageC; messageB; messageD; messageE].
Definition arranged1 : list Message.t := [messageD; messageE; messageB; messageC].
End Sample.

(** * Notions of the specification *)

(** Order by a numeric key. *)
Definition keyLe {A : Type} (key : A → number) (a b : A) : Prop := (key a ≤ key b)%Qc.

(** The time by which messages are ordered: a missing [createTime] counts as 0. *)
Definition timestamp (m : Message.t) : number := default 0%Qc (Message.createTime m).

(** A record that has a non-empty [id] and a [mapping]. *)
Definition hasIdAndMapping (conv : RawConversation.t) : bool :=
  match RawConversation.id conv, RawConversation.mapping conv with
  | Some (String _ _), Some _ => true
  | _, _ => false
  end.

(** A node whose message carries a truthy
    [metadata.is_visually_hidden_from_conversation]. *)
Definition hiddenFlagSet (node : option RawChatNode.t) : Prop :=
  ∃ nd message md,
    node = Some nd
    ∧ RawChatNode.message nd = Some message
    ∧ RawChatMessage.metadata message = Some md
    ∧ RawChatMessageMetadata.is_visually_hidden_from_conversation md = Some true.

Definition isHiddenNode (node : option RawChatNode.t) : bool :=
  match node with
  | Some nd =>
      match RawChatNode.message nd with
      | Some message => isVisuallyHidden message
      | None => false
      end
  | None => false
  end.

(** The record with the hidden nodes taken out of its mapping. *)
Definition withoutHiddenNodes (conv : RawConversation.t) : RawConversation.t :=
  {| RawConversation.id := RawConversation.id conv;
     RawConversation.title := RawConversation.title conv;
     RawConversation.create_time := RawConversation.create_time conv;
     RawConversation.update_time := RawConversation.update_time conv;
     RawConversation.mapping :=
       filter (λ entry, isHiddenNode entry.2 = false) <$> RawConversation.mapping conv;
     RawConversation.current_node := RawConversation.current_node conv |}.

(** What a normalized conversation shows: everything but the raw record. *)
Definition normalizedView (pc : ProcessedConversation.t)
    : string * string * number * number * list Message.t * string :=
  (ProcessedConversation.id pc, ProcessedConversation.title pc,
   ProcessedConversation.createTime pc, ProcessedConversation.updateTime pc,
   ProcessedConversation.messages pc, ProcessedConversation.summary pc).

(** [r] is [s] cut to [n] units, with an ellipsis exactly when something
    was cut off. *)
Definition truncatedTo (n : nat) (s r : string) : Prop :=
  ((String.length s ≤ n)%nat ∧ r = s)
  ∨ ((n < String.length s)%nat
     ∧ ∃ kept rest, s = kept +:+ rest ∧ String.length kept = n ∧ r = kept +:+ "...").

(** A message of the given role whose text is not empty. *)
Definition hasRoleWithText (role : string) (m : Message.t) : Prop :=
  Message.authorRole m = role ∧ Message.contentText m ≠ "".

(** [m] is the first message of [messages] that satisfies [P]. *)
Definition firstSuchThat (P : Message.t → Prop) (messages : list Message.t)
    (m : Message.t) : Prop :=
  ∃ before after, messages = before ++ m :: after ∧ Forall (λ x, ¬ P x) before ∧ P m.

(** A title that is, up to case, one of the generic placeholders. *)
Definition isGenericTitle (title : string) : Prop :=
  JsString.toLowerCase title ∈ ["new chat"; "empty chat"; "untitled conversation"].

(** A node with its [parent] and [children] links blanked. *)
Definition eraseNodeLinks (nd : RawChatNode.t) : RawChatNode.t :=
  {| RawChatNode.id := RawChatNode.id nd;
     RawChatNode.message := RawChatNode.message nd;
     RawChatNode.parent := None;
     RawChatNode.children := [] |}.

Definition eraseMappingLinks (mapping : list (string * option RawChatNode.t))
    : list (string * option RawChatNode.t) :=
  (λ entry : string * option RawChatNode.t, (entry.1, eraseNodeLinks <$> entry.2))
    <$> mapping.

(** A record with the links of every node of its mapping blanked: two
    records agree on it exactly when they differ in those links at most. *)
Definition eraseLinks (conv : RawConversation.t) : RawConversation.t :=
  {| RawConversation.id := RawConversation.id conv;
     RawConversation.title := RawConversation.title conv;
     RawConversation.create_time := RawConversation.create_time conv;
     RawConversation.update_time := RawConversation.update_time conv;
     RawConversation.mapping := eraseMappingLinks <$> RawConversation.mapping conv;
     RawConversation.current_node := RawConversation.current_node conv |}.

(** A string of white space only. *)
Definition allWhiteSpace (s : string) : Prop :=
  Forall (λ c, JsString.isWhiteSpace c = true) (list_ascii_of_string s).

Definition startsWithWhiteSpace (s : string) : bool :=
  match s with
  | EmptyString => false
  | String c _ => JsString.isWhiteSpace c
  end.

(** [t] occurs in [s] as a block of consecutive units. *)
Definition occursIn (t s : string) : Prop := ∃ before after, s = before +:+ t +:+ after.

(** The conversation mentions the lower-cased query in its title, in its
    summary or in the text of one of its messages, whatever the case there. *)
Definition mentions (query : string) (conv : ProcessedConversation.t) : Prop :=
  occursIn query (JsString.toLowerCase (ProcessedConversation.title conv))
  ∨ occursIn query (JsString.toLowerCase (ProcessedConversation.summary conv))
  ∨ ∃ msg, msg ∈ ProcessedConversation.messages conv
           ∧ occursIn query (JsString.toLowerCase (Message.contentText msg)).


(** What holds of the state after every render: the processed
    conversations are the normalized raw ones, the total counter is their
    number, the displayed conversations are in step with the search term,
    and nothing is listed while a file is loading. *)
Definition stateInvariant (st : AppState.t) : Prop :=
  AppState.processedConversations st = parseArray (AppState.rawConversations st)
  ∧ AppState.initialCount st = length (AppState.processedConversations st)
  ∧ AppState.filteredConversations st = AppState.filteredConversations (filterEffect st)
  ∧ (AppState.isLoading st = true →
     AppState.rawConversations st = [] ∧ AppState.filteredConversations st = []).

(** * Properties *)

(** ** The definitions at work *)

Example generateSummary_generic_title :
  generateSummary "New Chat"
    [ {| Message.id := "m1"; Message.authorRole := "user";
         Message.contentText :=
           "Hello there, how are you today? I would like to plan a long trip "
           +:+ "through the mountains with two friends in early spring.";
         Message.createTime := None |} ]
  = "Hello there, how are you today? I would like to plan a long trip "
    +:+ "through the mountains with two frie...".
Proof. reflexivity. Qed.

Example generateSummary_own_title :
  generateSummary "Project Plan"
    [ {| Message.id := "m1"; Message.authorRole := "user";
         Message.contentText := "Hello"; Message.createTime := None |} ]
  = "Project Plan".
Proof. reflexivity. Qed.

Example sanitizeFilename_white_space :
  sanitizeFilename "  notes   on <Rocq>: part 1 " = "_notes_on_Rocq_part_1_".
Proof. reflexivity. Qed.

Example parseConversations_not_an_array :
  parseConversations NotAnArray
  = inl "Invalid format: Expected an array of conversations.".
Proof. reflexivity. Qed.

(** The sample archive: the record without [id] is skipped; in the first
    record the hidden node [a] and the blank node [f] push nothing, and the
    messages without a time and with time 0 come first, in mapping order. *)
Example parseArray_sample :
  (λ pc, (ProcessedConversation.id pc,
          Message.id <$> ProcessedConversation.messages pc,
          ProcessedConversation.summary pc)) <$> parseArray Sample.archive
  = [ ("conv-1", ["m-d"; "m-e"; "m-b"; "m-c"], "First of all");
      ("conv-3", ["m-b"], "How are you?") ].
Proof. by vm_compute. Qed.

(** ** Facts about [Array_sort] under a comparator that subtracts keys *)

Lemma Qc_minus_compare_Gt (p q : Qc) : (p - q ?= 0)%Qc = Gt ↔ (q < p)%Qc.
Proof.
  rewrite <- Qcgt_alt. change (Qlt 0%Qc (p - q)%Qc) with (0 < p - q)%Qc.
  unfold Qcminus. symmetry. apply Qclt_minus_iff.
Qed.

Section ArraySortFacts.
Context {A : Type} (key : A → number) (comparefn : A → A → number).
Hypothesis comparefn_key : ∀ a b, comparefn a b = (key a - key b)%Qc.

Lemma sortInsert_cons_case (x y : A) (l : list A) :
  ((key y < key x)%Qc ∧ sortInsert comparefn x (y :: l) = y :: sortInsert comparefn x l)
  ∨ ((key x ≤ key y)%Qc ∧ sortInsert comparefn x (y :: l) = x :: y :: l).
Proof.
  simpl. destruct (comparefn x y ?= 0)%Qc eqn:E.
  - right. split; [|done]. apply Qcle_ngt. intros H.
    apply Qc_minus_compare_Gt in H. rewrite <- comparefn_key in H. congruence.
  - right. split; [|done]. apply Qcle_ngt. intros H.
    apply Qc_minus_compare_Gt in H. rewrite <- comparefn_key in H. congruence.
  - left. split; [|done]. apply Qc_minus_compare_Gt. by rewrite <- comparefn_key.
Qed.

Lemma sortInsert_Permutation (x : A) (l : list A) :
  sortInsert comparefn x l ≡ₚ x :: l.
Proof.
  induction l as [|y l IH]; [done|].
  destruct (sortInsert_cons_case x y l) as [[_ ->]|[_ ->]]; [|done].
  rewrite IH. apply Permutation_swap.
Qed.

Lemma Array_sort_Permutation (l : list A) : Array_sort comparefn l ≡ₚ l.
Proof.
  induction l as [|x l IH]; [done|]. simpl.
  by rewrite sortInsert_Permutation, IH.
Qed.

Lemma sortInsert_StronglySorted (x : A) (l : list A) :
  StronglySorted (keyLe key) l → StronglySorted (keyLe key) (sortInsert comparefn x l).
Proof.
  induction l as [|y l IH]; intros Hl.
  - simpl. repeat constructor.
  - apply StronglySorted_inv in Hl as [Hl Hy].
    destruct (sortInsert_cons_case x y l) as [[Hlt ->]|[Hle ->]].
    + constructor; [by apply IH|].
      rewrite sortInsert_Permutation. constructor; [|done].
      by apply Qclt_le_weak.
    + constructor; [by constructor|].
      constructor; [done|].
      eapply Forall_impl; [exact Hy|]. intros z Hz. unfold keyLe in *.
      by eapply Qcle_trans.
Qed.

Lemma Array_sort_StronglySorted (l : list A) :
  StronglySorted (keyLe key) (Array_sort comparefn l).
Proof.
  induction l as [|x l IH]; simpl; [constructor|].
  by apply sortInsert_StronglySorted.
Qed.

(** Stability: the elements of any one key keep their relative order. *)
Lemma sortInsert_stable (t : number) (x : A) (l : list A) :
  filter (λ a, key a = t) (sortInsert comparefn x l) = filter (λ a, key a = t) (x :: l).
Proof.
  induction l as [|y l IH]; [done|].
  destruct (sortInsert_cons_case x y l) as [[Hlt ->]|[_ ->]]; [|done].
  rewrite filter_cons, IH, !filter_cons.
  destruct (decide (key y = t)) as [Hy|Hy], (decide (key x = t)) as [Hx|Hx]; try done.
  rewrite Hx, Hy in Hlt. by apply Qclt_not_eq in Hlt.
Qed.

Lemma Array_sort_stable (t : number) (l : list A) :
  filter (λ a, key a = t) (Array_sort comparefn l) = filter (λ a, key a = t) l.
Proof.
  induction l as [|x l IH]; [done|]. simpl.
  by rewrite sortInsert_stable, !filter_cons, IH.
Qed.

(** A stable sorted arrangement is unique, so every stable sort that
    orders by the comparator computes [Array_sort]. *)
Lemma stable_sorted_unique (l1 l2 : list A) :
  StronglySorted (keyLe key) l1 → StronglySorted (keyLe key) l2 →
  (∀ t, filter (λ a, key a = t) l1 = filter (λ a, key a = t) l2) →
  l1 = l2.
Proof.
  revert l2. induction l1 as [|a l1 IH]; intros l2 H1 H2 Hf.
  - destruct l2 as [|b l2]; [done|].
    specialize (Hf (key b)). rewrite filter_cons in Hf.
    by destruct (decide (key b = key b)).
  - destruct l2 as [|b l2].
    { specialize (Hf (key a)). rewrite filter_cons in Hf.
      by destruct (decide (key a = key a)). }
    apply StronglySorted_inv in H1 as [H1 Ha].
    apply StronglySorted_inv in H2 as [H2 Hb].
    assert (a ∈ b :: l2) as Hain.
    { eapply proj2, (list_elem_of_filter (λ x, key x = key a)). rewrite <- Hf.
      rewrite filter_cons. destruct (decide (key a = key a)); [left|done]. }
    assert (b ∈ a :: l1) as Hbin.
    { eapply proj2, (list_elem_of_filter (λ x, key x = key b)). rewrite Hf.
      rewrite filter_cons. destruct (decide (key b = key b)); [left|done]. }
    assert (key a = key b) as Hk.
    { apply Qcle_antisym.
      - apply elem_of_cons in Hbin as [->|Hbin]; [apply Qcle_refl|].
        rewrite Forall_forall in Ha. by apply Ha.
      - apply elem_of_cons in Hain as [->|Hain]; [apply Qcle_refl|].
        rewrite Forall_forall in Hb. by apply Hb. }
    assert (a = b) as ->.
    { specialize (Hf (key a)). rewrite !filter_cons in Hf.
      destruct (decide (key a = key a)); [|done].
      destruct (decide (key b = key a)); [|by rewrite Hk in *].
      congruence. }
    f_equal. apply IH; [done..|]. intros t. specialize (Hf t).
    rewrite !filter_cons in Hf. destruct (decide (key b = t)); congruence.
Qed.

Lemma Array_sort_unique (l sorted : list A) :
  StronglySorted (keyLe key) sorted →
  (∀ t, filter (λ a, key a = t) sorted = filter (λ a, key a = t) l) →
  sorted = Array_sort comparefn l.
Proof.
  intros Hs Hf. apply stable_sorted_unique; [done|apply Array_sort_StronglySorted|].
  intros t. by rewrite Array_sort_stable.
Qed.
End ArraySortFacts.

(** ** Facts about the normalizer *)

Lemma orZero_default (x : option number) : JsNumber.orZero x = default 0%Qc x.
Proof.
  destruct x as [n|]; [|done]. simpl. unfold JsNumber.truthy.
  case_bool_decide as Hn; [done|]. by destruct (decide (n = 0%Qc)).
Qed.

Lemma compareMessages_timestamp (a b : Message.t) :
  compareMessages a b = (timestamp a - timestamp b)%Qc.
Proof. unfold compareMessages, timestamp. by rewrite !orZero_default. Qed.

Lemma foldl_visitNode (acc : list Message.t) (nodes : list (option RawChatNode.t)) :
  foldl visitNode acc nodes = acc ++ omap nodeMessage nodes.
Proof.
  revert acc. induction nodes as [|node nodes IH]; intros acc; simpl.
  - by rewrite app_nil_r.
  - rewrite IH. unfold visitNode. destruct (nodeMessage node); [|done].
    by rewrite <- app_assoc.
Qed.

(** The array filled by [forEach] holds the messages of the nodes in the
    order in which [Object.values] visits them. *)
Lemma extractMessages_omap (mapping : list (string * option RawChatNode.t)) :
  extractMessages mapping = omap nodeMessage (Object_values mapping).
Proof. unfold extractMessages. by rewrite foldl_visitNode. Qed.

Lemma processConversation_Some (index : nat) (conv : RawConversation.t)
    (pc : ProcessedConversation.t) :
  processConversation index conv = Some pc ↔
  ∃ id mapping,
    RawConversation.id conv = Some id ∧ id ≠ "" ∧
    RawConversation.mapping conv = Some mapping ∧
    pc = {|
      ProcessedConversation.id := id;
      ProcessedConversation.title :=
        JsString.orElse (RawConversation.title conv) "Untitled Conversation";
      ProcessedConversation.createTime := RawConversation.create_time conv;
      ProcessedConversation.updateTime := RawConversation.update_time conv;
      ProcessedConversation.messages :=
        Array_sort compareMessages (extractMessages mapping);
      ProcessedConversation.summary :=
        generateSummary
          (JsString.orElse (RawConversation.title conv) "Untitled Conversation")
          (Array_sort compareMessages (extractMessages mapping));
      ProcessedConversation.originalData := conv
    |}.
Proof.
  unfold processConversation.
  destruct (RawConversation.mapping conv) as [mapping|];
    [|split; [done|by intros (? & ? & _ & _ & ? & _)]].
  destruct (RawConversation.id conv) as [[|c id]|]; simpl.
  - split; [done|]. by intros (? & ? & [= <-] & ? & _).
  - split.
    + intros [= <-]. by eexists _, _.
    + by intros (? & ? & [= <-] & _ & [= <-] & ->).
  - split; [done|]. by intros (? & ? & ? & _).
Qed.

Lemma processConversation_is_Some (index : nat) (conv : RawConversation.t) :
  is_Some (processConversation index conv) ↔ hasIdAndMapping conv = true.
Proof.
  unfold processConversation, hasIdAndMapping.
  destruct (RawConversation.mapping conv), (RawConversation.id conv) as [[|??]|];
    simpl; split; intros H; try done; by inversion H.
Qed.

(** The index only feeds the fallback of [conv.id || ...], which a surviving
    record never takes. *)
Lemma processConversation_index (i j : nat) (conv : RawConversation.t) :
  processConversation i conv = processConversation j conv.
Proof.
  unfold processConversation.
  destruct (RawConversation.mapping conv); [|done].
  by destruct (RawConversation.id conv) as [[|??]|].
Qed.

Lemma omap_imap_processConversation (k : nat) (convs : list RawConversation.t) :
  omap (λ x, x) (imap (λ i, processConversation (k + i)) convs)
  = omap (processConversation 0) convs.
Proof.
  revert k. induction convs as [|conv convs IH]; intros k; [done|].
  rewrite imap_cons. cbn [omap list_omap].
  rewrite (processConversation_index (k + 0) 0), <- (IH (S k)).
  rewrite (imap_ext _ (λ i, processConversation (S k + i))); [done|].
  intros i x _. simpl. f_equal. lia.
Qed.

Lemma parseArray_omap (convs : list RawConversation.t) :
  parseArray convs = omap (processConversation 0) convs.
Proof. exact (omap_imap_processConversation 0 convs). Qed.

Lemma elem_of_parseArray (convs : list RawConversation.t) (pc : ProcessedConversation.t) :
  pc ∈ parseArray convs ↔ ∃ conv, conv ∈ convs ∧ processConversation 0 conv = Some pc.
Proof. rewrite parseArray_omap. apply list_elem_of_omap. Qed.

(** Every normalized conversation stems from a record with a mapping, and
    its messages are the sorted messages of the nodes of that mapping. *)
Lemma parseArray_messages (convs : list RawConversation.t) (pc : ProcessedConversation.t) :
  pc ∈ parseArray convs →
  ∃ mapping,
    RawConversation.mapping (ProcessedConversation.originalData pc) = Some mapping
    ∧ ProcessedConversation.messages pc
      = Array_sort compareMessages (omap nodeMessage (Object_values mapping)).
Proof.
  intros (conv & _ & Hpc)%elem_of_parseArray.
  apply processConversation_Some in Hpc as (id & mapping & _ & _ & Hmapping & ->).
  exists mapping. by rewrite <- extractMessages_omap.
Qed.

(** ** C1: messages are sorted by time, stably *)

(** C1. In every normalized conversation of every archive, [messages] is
    sorted non-decreasing by [createTime], a missing one counting as 0, and
    the sort is stable: for every time [t], the messages of time [t] appear
    in the order in which iterating the raw mapping meets them. *)
Theorem messages_sorted_stable
    (convs : list RawConversation.t) (pc : ProcessedConversation.t) :
  pc ∈ parseArray convs →
  StronglySorted (keyLe timestamp) (ProcessedConversation.messages pc)
  ∧ ∃ mapping,
      RawConversation.mapping (ProcessedConversation.originalData pc) = Some mapping
      ∧ ProcessedConversation.messages pc ≡ₚ omap nodeMessage (Object_values mapping)
      ∧ ∀ t, filter (λ m, timestamp m = t) (ProcessedConversation.messages pc)
             = filter (λ m, timestamp m = t) (omap nodeMessage (Object_values mapping)).
Proof.
  intros (mapping & Hmapping & ->)%parseArray_messages. split.
  - apply (Array_sort_StronglySorted timestamp), compareMessages_timestamp.
  - exists mapping. split_and!; [done| |].
    + apply (Array_sort_Permutation timestamp), compareMessages_timestamp.
    + intros t. apply (Array_sort_stable timestamp), compareMessages_timestamp.
Qed.

Lemma messages_sorted_stable_witness :
  Sample.processed1 ∈ parseArray Sample.archive
  ∧ StronglySorted (keyLe timestamp) (ProcessedConversation.messages Sample.processed1).
Proof.
  assert (Sample.processed1 ∈ parseArray Sample.archive) as Hin
    by (vm_compute; apply list_elem_of_here).
  split; [exact Hin|].
  exact (proj1 (messages_sorted_stable Sample.archive Sample.processed1 Hin)).
Defined.

(** ** C2: hidden nodes contribute nothing *)

Lemma isHiddenNode_hiddenFlagSet (node : option RawChatNode.t) :
  isHiddenNode node = true ↔ hiddenFlagSet node.
Proof.
  unfold isHiddenNode, hiddenFlagSet, isVisuallyHidden. split.
  - destruct node as [nd|]; [|done].
    destruct (RawChatNode.message nd) as [message|] eqn:Hm; [|done].
    destruct (RawChatMessage.metadata message) as [md|] eqn:Hmd; [|done].
    destruct (RawChatMessageMetadata.is_visually_hidden_from_conversation md)
      as [[]|] eqn:Hflag; [|done..].
    intros _. by exists nd, message, md.
  - intros (nd & message & md & -> & -> & -> & ->). done.
Qed.

Lemma nodeMessage_hidden (node : option RawChatNode.t) :
  isHiddenNode node = true → nodeMessage node = None.
Proof.
  unfold isHiddenNode, nodeMessage. destruct node as [nd|]; [|done].
  destruct (RawChatNode.message nd) as [message|]; [|done].
  intros ->. destruct (RawChatMessage.content message) as [content|]; [|done].
  by destruct (hasPartsOrText content).
Qed.

Lemma extractMessages_without_hidden (mapping : list (string * option RawChatNode.t)) :
  extractMessages (filter (λ entry, isHiddenNode entry.2 = false) mapping)
  = extractMessages mapping.
Proof.
  rewrite !extractMessages_omap. unfold Object_values.
  induction mapping as [|[key node] mapping IH]; [done|].
  destruct (decide (isHiddenNode node = false)) as [Hn|Hn].
  - rewrite filter_cons_True by done. cbn [fmap list_fmap omap list_omap snd].
    by rewrite IH.
  - rewrite filter_cons_False by done. cbn [fmap list_fmap omap list_omap snd].
    apply not_false_is_true in Hn. by rewrite (nodeMessage_hidden node Hn).
Qed.

Lemma processConversation_without_hidden (index : nat) (conv : RawConversation.t) :
  normalizedView <$> processConversation index (withoutHiddenNodes conv)
  = normalizedView <$> processConversation index conv.
Proof.
  unfold processConversation, withoutHiddenNodes. simpl.
  destruct (RawConversation.mapping conv) as [mapping|]; [|done]. simpl.
  destruct (JsString.optTruthy (RawConversation.id conv)); [|done]. simpl.
  by rewrite extractMessages_without_hidden.
Qed.

Lemma fmap_omap_agree {A B C : Type} (view : B → C) (f : A → option B) (g : A → A)
    (l : list A) :
  (∀ x, view <$> f (g x) = view <$> f x) →
  view <$> omap f (g <$> l) = view <$> omap f l.
Proof.
  intros Hfg. induction l as [|x l IH]; [done|]. cbn [fmap list_fmap omap list_omap].
  specialize (Hfg x). destruct (f (g x)), (f x); simplify_eq/=; [|done].
  by rewrite IH, Hfg.
Qed.

(** C2. A node whose message has a truthy
    [metadata.is_visually_hidden_from_conversation] pushes no message; every
    message of every normalized conversation is the message of a node of the
    mapping that is not hidden; and the normalized output of an archive is
    the one of the archive with the hidden nodes removed. *)
Theorem hidden_nodes_contribute_nothing :
  (∀ node, hiddenFlagSet node → nodeMessage node = None)
  ∧ (∀ convs pc m,
       pc ∈ parseArray convs → m ∈ ProcessedConversation.messages pc →
       ∃ mapping key node,
         RawConversation.mapping (ProcessedConversation.originalData pc) = Some mapping
         ∧ (key, node) ∈ mapping ∧ nodeMessage node = Some m ∧ ¬ hiddenFlagSet node)
  ∧ (∀ convs,
       normalizedView <$> parseArray (withoutHiddenNodes <$> convs)
       = normalizedView <$> parseArray convs).
Proof.
  split_and!.
  - intros node Hnode. by apply nodeMessage_hidden, isHiddenNode_hiddenFlagSet.
  - intros convs pc m Hpc Hm.
    apply parseArray_messages in Hpc as (mapping & Hmapping & Hmessages).
    rewrite Hmessages in Hm.
    rewrite (Array_sort_Permutation timestamp _ compareMessages_timestamp) in Hm.
    apply list_elem_of_omap in Hm as (node & Hnode & Hm).
    apply list_elem_of_fmap in Hnode as ([key node'] & -> & Hentry).
    exists mapping, key, node'. split_and!; [done..|].
    intros Hhidden%isHiddenNode_hiddenFlagSet%nodeMessage_hidden. simpl in Hm. congruence.
  - intros convs. rewrite !parseArray_omap. apply fmap_omap_agree.
    intros conv. apply processConversation_without_hidden.
Qed.

(** ** C3: the precedence of [generateSummary] *)

Lemma app_String (c : ascii) (s t : string) : String c s +:+ t = String c (s +:+ t).
Proof. reflexivity. Qed.

Lemma app_empty_r (s : string) : s +:+ "" = s.
Proof. induction s as [|c s IH]; [done|]. by rewrite app_String, IH. Qed.

Lemma substring0_short (n : nat) (s : string) :
  (String.length s ≤ n)%nat → JsString.substring0 n s = s.
Proof.
  unfold JsString.substring0. revert n.
  induction s as [|c s IH]; intros [|n] Hn; simpl in *; try done; [lia|].
  f_equal. apply IH. lia.
Qed.

Lemma substring0_long (n : nat) (s : string) :
  (n ≤ String.length s)%nat →
  ∃ rest, s = JsString.substring0 n s +:+ rest
          ∧ String.length (JsString.substring0 n s) = n.
Proof.
  unfold JsString.substring0. revert n.
  induction s as [|c s IH]; intros [|n] Hn; simpl in *.
  - by exists "".
  - lia.
  - by exists (String c s).
  - destruct (IH n) as (rest & Hs & Hlen); [lia|].
    exists rest. split; [exact (f_equal (String c) Hs)|by rewrite Hlen].
Qed.

Lemma substring0_length (n : nat) (s : string) :
  (String.length (JsString.substring0 n s) ≤ n)%nat.
Proof.
  destruct (decide (n ≤ String.length s)%nat) as [Hn|Hn].
  - destruct (substring0_long n s Hn) as (_ & _ & ->). done.
  - rewrite substring0_short; lia.
Qed.

Lemma truncate_truncatedTo (n : nat) (s : string) : truncatedTo n s (truncate n s).
Proof.
  unfold truncatedTo, truncate. destruct (n <? String.length s)%nat eqn:Hn.
  - apply Nat.ltb_lt in Hn. right. split; [done|].
    destruct (substring0_long n s) as (rest & Hs & Hlen); [lia|].
    by exists (JsString.substring0 n s), rest.
  - apply Nat.ltb_ge in Hn. left. split; [done|].
    rewrite substring0_short by done. apply app_empty_r.
Qed.

Lemma truthy_nonempty (s : string) : JsString.truthy s = true ↔ s ≠ "".
Proof. by destruct s. Qed.

Lemma hasRoleAndText_spec (role : string) (m : Message.t) :
  hasRoleAndText role m = true ↔ hasRoleWithText role m.
Proof.
  unfold hasRoleAndText, hasRoleWithText.
  by rewrite andb_true_iff, bool_decide_eq_true, truthy_nonempty.
Qed.

Lemma find_firstSuchThat (role : string) (messages : list Message.t) (m : Message.t) :
  firstSuchThat (hasRoleWithText role) messages m →
  List.find (hasRoleAndText role) messages = Some m.
Proof.
  intros (before & after & -> & Hbefore & Hm).
  induction Hbefore as [|x before Hx _ IH]; simpl.
  - apply hasRoleAndText_spec in Hm. by rewrite Hm.
  - destruct (hasRoleAndText role x) eqn:E; [|done].
    by apply hasRoleAndText_spec in E.
Qed.

Lemma find_none_no_role (role : string) (messages : list Message.t) :
  List.find (hasRoleAndText role) messages = None ↔
  Forall (λ x, ¬ hasRoleWithText role x) messages.
Proof.
  induction messages as [|x messages IH]; simpl; [by split; [constructor|]|].
  rewrite Forall_cons, <- IH, <- hasRoleAndText_spec.
  destruct (hasRoleAndText role x).
  - split; [done|]. intros [H _]. by destruct H.
  - split; [by intros ->|by intros [_ ->]].
Qed.

Lemma generateSummary_title (title : string) (messages : list Message.t) :
  title ≠ "" → ¬ isGenericTitle title →
  generateSummary title messages = truncate 150 title.
Proof.
  unfold generateSummary, isGenericTitle, genericTitles.
  intros Htitle%truthy_nonempty Hgeneric.
  by rewrite Htitle, bool_decide_eq_false_2.
Qed.

Lemma generateSummary_fallbacks (title : string) (messages : list Message.t) :
  title = "" ∨ isGenericTitle title →
  generateSummary title messages =
    match List.find (hasRoleAndText "user") messages with
    | Some m => truncate 100 (Message.contentText m)
    | None =>
        match List.find (hasRoleAndText "assistant") messages with
        | Some m => truncate 100 (Message.contentText m)
        | None => if JsString.truthy title then title else "No summary available"
        end
    end.
Proof.
  unfold generateSummary, isGenericTitle, genericTitles.
  intros [->|Hgeneric]; [done|].
  by rewrite (bool_decide_eq_true_2 _ Hgeneric), andb_false_r.
Qed.

(** C3. When the title is non-empty and, up to case, none of "new chat",
    "empty chat" and "untitled conversation", [generateSummary] returns the
    title cut to 150 units, with "..." appended exactly when it was longer;
    otherwise it returns the text of the first message of the list with
    [authorRole] "user" and a non-empty text, cut to 100 units with "..."
    appended exactly when it was longer. *)
Theorem generateSummary_precedence (title : string) (messages : list Message.t) :
  (title ≠ "" → ¬ isGenericTitle title →
   truncatedTo 150 title (generateSummary title messages))
  ∧ (title = "" ∨ isGenericTitle title →
     ∀ m, firstSuchThat (hasRoleWithText "user") messages m →
          truncatedTo 100 (Message.contentText m) (generateSummary title messages)).
Proof.
  split.
  - intros Htitle Hgeneric. rewrite generateSummary_title by done.
    apply truncate_truncatedTo.
  - intros Hrule1 m Hm%find_firstSuchThat.
    rewrite generateSummary_fallbacks, Hm by done. apply truncate_truncatedTo.
Qed.

(** ** C4: the time of a pushed message *)

Lemma nodeMessage_createTime (nd : RawChatNode.t) (message : RawChatMessage.t)
    (m : Message.t) :
  RawChatNode.message nd = Some message →
  nodeMessage (Some nd) = Some m →
  Message.createTime m = JsNumber.orUndefined (RawChatMessage.create_time message).
Proof.
  unfold nodeMessage. intros ->.
  destruct (RawChatMessage.content message) as [content|]; [|done].
  destruct (hasPartsOrText content); [|done].
  destruct (isVisuallyHidden message); [done|].
  case_bool_decide; [done|]. by intros [= <-].
Qed.

(** C4, as the code has it. For a node that pushes a message, the message's
    [createTime] is the raw [create_time] when that is a number other than
    0; a raw [create_time] that is 0, null or missing gives a message
    without [createTime]. *)
Theorem createTime_of_pushed_message (nd : RawChatNode.t) (message : RawChatMessage.t)
    (m : Message.t) :
  RawChatNode.message nd = Some message →
  nodeMessage (Some nd) = Some m →
  (∀ t, RawChatMessage.create_time message = Some t → t ≠ 0%Qc →
        Message.createTime m = Some t)
  ∧ (RawChatMessage.create_time message = None
     ∨ RawChatMessage.create_time message = Some 0%Qc →
     Message.createTime m = None).
Proof.
  intros Hmessage Hm. rewrite (nodeMessage_createTime nd message m Hmessage Hm).
  unfold JsNumber.orUndefined, JsNumber.truthy. split.
  - intros t -> Ht. by rewrite bool_decide_eq_true_2.
  - intros [->| ->]; [done|]. by rewrite bool_decide_eq_false_2 by (by intros []).
Qed.

Lemma createTime_of_pushed_message_witness :
  ∃ m, nodeMessage (Some Sample.nodeB) = Some m
       ∧ Message.createTime m = Some (Qc_of_Z 10).
Proof.
  eexists. split; [reflexivity|].
  refine (proj1 (createTime_of_pushed_message Sample.nodeB _ _ eq_refl eq_refl)
            (Qc_of_Z 10) eq_refl _).
  by vm_compute.
Defined.

(** The statement of C4 fails: the message of a node whose raw
    [create_time] is 0 has no [createTime]. *)
Lemma createTime_zero_is_dropped :
  ¬ (∀ nd message m t,
       RawChatNode.message nd = Some message →
       nodeMessage (Some nd) = Some m →
       RawChatMessage.create_time message = Some t →
       Message.createTime m = Some t).
Proof.
  intros H.
  by specialize (H Sample.nodeD _ _ (Qc_of_Z 0) eq_refl eq_refl eq_refl).
Qed.

(** ** C5 and C6: the counters after an upload *)

Lemma uploadParsed_processed (convs : list RawConversation.t) (st : AppState.t) :
  AppState.processedConversations (uploadParsed (JsonArray convs) st) = parseArray convs.
Proof. reflexivity. Qed.

Lemma uploadParsed_initialCount (convs : list RawConversation.t) (st : AppState.t) :
  AppState.initialCount (uploadParsed (JsonArray convs) st) = length (parseArray convs).
Proof. reflexivity. Qed.

Lemma hasIdAndMapping_spec (conv : RawConversation.t) :
  hasIdAndMapping conv = true ↔
  (∃ id, RawConversation.id conv = Some id ∧ id ≠ "")
  ∧ is_Some (RawConversation.mapping conv).
Proof.
  unfold hasIdAndMapping. split.
  - destruct (RawConversation.id conv) as [[|c id]|]; [done| |done].
    destruct (RawConversation.mapping conv); [|done].
    intros _. split; [by eexists|done].
  - intros [(id & -> & Hid) [mapping ->]]. by destruct id.
Qed.

Lemma parseArray_originalData (convs : list RawConversation.t) :
  ProcessedConversation.originalData <$> parseArray convs
  = filter (λ conv, hasIdAndMapping conv = true) convs.
Proof.
  rewrite parseArray_omap. induction convs as [|conv convs IH]; [done|].
  cbn [omap list_omap]. rewrite filter_cons.
  destruct (processConversation 0 conv) as [pc|] eqn:Hpc.
  - rewrite decide_True by (apply (processConversation_is_Some 0); by rewrite Hpc).
    cbn [fmap list_fmap]. rewrite <- IH. f_equal.
    by apply processConversation_Some in Hpc as (? & ? & _ & _ & _ & ->).
  - rewrite decide_False; [done|].
    intros H%(processConversation_is_Some 0). rewrite Hpc in H. by destruct H.
Qed.

(** C5, on the code. The [total] counter is set from the length of the
    parsed list, so it counts the records that survive validation: for the
    sample archive of three records, one of them without [id], it is 2. *)
Theorem total_counts_surviving_records :
  (∀ convs st,
     Stats.total (stats (uploadParsed (JsonArray convs) st)) = length (parseArray convs))
  ∧ length Sample.archive = 3
  ∧ Stats.total (stats (uploadParsed (JsonArray Sample.archive) initialState)) = 2.
Proof. split_and!; [done|done|by vm_compute]. Qed.

(** C6. After the upload of an array, [processed] is at most [total] (and at
    most the number of records), it is the number of records that have a
    non-empty [id] and a [mapping], and the surviving records are those
    records in the order of the array. *)
Theorem processed_counts_valid_records (convs : list RawConversation.t) (st : AppState.t) :
  let st' := uploadParsed (JsonArray convs) st in
  Stats.processed (stats st') ≤ Stats.total (stats st')
  ∧ Stats.processed (stats st') ≤ length convs
  ∧ Stats.processed (stats st')
    = length (filter (λ conv, hasIdAndMapping conv = true) convs)
  ∧ ProcessedConversation.originalData <$> AppState.processedConversations st'
    = filter (λ conv, hasIdAndMapping conv = true) convs.
Proof.
  intros st'. unfold stats. cbn [Stats.processed Stats.total].
  unfold st'. rewrite uploadParsed_initialCount, uploadParsed_processed.
  assert (length (parseArray convs)
          = length (filter (λ conv, hasIdAndMapping conv = true) convs)) as Hlen.
  { by rewrite <- parseArray_originalData, length_fmap. }
  split_and!; [done| |done|apply parseArray_originalData].
  rewrite Hlen. apply length_filter.
Qed.

(** ** C9: the links between nodes do not matter *)

Lemma nodeMessage_eraseNodeLinks (node : option RawChatNode.t) :
  nodeMessage (eraseNodeLinks <$> node) = nodeMessage node.
Proof. by destruct node. Qed.

Lemma extractMessages_eraseLinks (mapping : list (string * option RawChatNode.t)) :
  extractMessages (eraseMappingLinks mapping) = extractMessages mapping.
Proof.
  rewrite !extractMessages_omap. unfold Object_values, eraseMappingLinks.
  induction mapping as [|[key node] mapping IH]; [done|].
  cbn [fmap list_fmap omap list_omap fst snd].
  by rewrite nodeMessage_eraseNodeLinks, IH.
Qed.

Lemma processConversation_eraseLinks (index : nat) (conv : RawConversation.t) :
  normalizedView <$> processConversation index (eraseLinks conv)
  = normalizedView <$> processConversation index conv.
Proof.
  unfold processConversation, eraseLinks. simpl.
  destruct (RawConversation.mapping conv) as [mapping|]; [|done]. simpl.
  destruct (JsString.optTruthy (RawConversation.id conv)); [|done]. simpl.
  by rewrite extractMessages_eraseLinks.
Qed.

(** C9. Two raw conversations that are identical except for the [parent]
    and [children] fields of the nodes of their mappings are normalized
    alike: both are skipped, or both survive with the same identifier,
    title, times, message list and summary. *)
Theorem links_do_not_matter (conv1 conv2 : RawConversation.t) (index1 index2 : nat) :
  eraseLinks conv1 = eraseLinks conv2 →
  normalizedView <$> processConversation index1 conv1
  = normalizedView <$> processConversation index2 conv2.
Proof.
  intros Hlinks.
  rewrite <- (processConversation_eraseLinks index1 conv1), Hlinks.
  rewrite (processConversation_index index1 index2).
  apply processConversation_eraseLinks.
Qed.

Lemma links_do_not_matter_witness :
  Sample.conv1 ≠ Sample.conv1Relinked
  ∧ normalizedView <$> processConversation 0 Sample.conv1
    = normalizedView <$> processConversation 0 Sample.conv1Relinked.
Proof.
  split; [discriminate|].
  apply (links_do_not_matter Sample.conv1 Sample.conv1Relinked 0 0).
  reflexivity.
Defined.

(** ** C10: records without a title *)

(** C10. A surviving record whose [title] is missing or empty is normalized
    with the title "Untitled Conversation"; that title is a generic
    placeholder, so the summary is the text (cut to 100 units) of the first
    user message with text, else of the first assistant message with text,
    and the title itself when there is neither. *)
Theorem missing_title_is_untitled
    (index : nat) (conv : RawConversation.t) (pc : ProcessedConversation.t) :
  processConversation index conv = Some pc →
  RawConversation.title conv = None ∨ RawConversation.title conv = Some "" →
  let messages := ProcessedConversation.messages pc in
  let summary := ProcessedConversation.summary pc in
  ProcessedConversation.title pc = "Untitled Conversation"
  ∧ isGenericTitle (ProcessedConversation.title pc)
  ∧ (∀ m, firstSuchThat (hasRoleWithText "user") messages m →
          truncatedTo 100 (Message.contentText m) summary)
  ∧ (Forall (λ x, ¬ hasRoleWithText "user" x) messages →
     ∀ m, firstSuchThat (hasRoleWithText "assistant") messages m →
          truncatedTo 100 (Message.contentText m) summary)
  ∧ (Forall (λ x, ¬ hasRoleWithText "user" x) messages →
     Forall (λ x, ¬ hasRoleWithText "assistant" x) messages →
     summary = "Untitled Conversation").
Proof.
  intros (id & mapping & _ & _ & _ & ->)%processConversation_Some Htitle. cbn zeta.
  cbn [ProcessedConversation.title ProcessedConversation.messages
       ProcessedConversation.summary].
  assert (JsString.orElse (RawConversation.title conv) "Untitled Conversation"
          = "Untitled Conversation") as ->
    by (destruct Htitle as [H|H]; by rewrite H).
  assert (isGenericTitle "Untitled Conversation") as Hgeneric
    by (vm_compute; do 2 apply list_elem_of_further; apply list_elem_of_here).
  rewrite generateSummary_fallbacks by (by right).
  split_and!; [done|done|..].
  - intros m Hm%find_firstSuchThat. rewrite Hm. apply truncate_truncatedTo.
  - intros Hnone%find_none_no_role m Hm%find_firstSuchThat. rewrite Hnone, Hm.
    apply truncate_truncatedTo.
  - intros Huser%find_none_no_role Hassistant%find_none_no_role.
    by rewrite Huser, Hassistant.
Qed.

Lemma missing_title_is_untitled_witness :
  ProcessedConversation.title Sample.processed3 = "Untitled Conversation"
  ∧ ProcessedConversation.summary Sample.processed3 = "How are you?".
Proof.
  split; [|reflexivity].
  exact (proj1 (missing_title_is_untitled 0 Sample.conv3 Sample.processed3
                  eq_refl (or_introl eq_refl))).
Defined.

(** ** C7: [sanitizeFilename] *)

Lemma replaceWhiteSpaceRuns_go_inRun (r : string) (inRun : bool) (s : string) :
  startsWithWhiteSpace s = false →
  JsString.replaceWhiteSpaceRuns_go r inRun s = JsString.replaceWhiteSpaceRuns_go r false s.
Proof. destruct s as [|c s]; [done|]. simpl. by intros ->. Qed.

Lemma replaceWhiteSpaceRuns_go_skip (r run rest : string) :
  allWhiteSpace run → startsWithWhiteSpace rest = false →
  JsString.replaceWhiteSpaceRuns_go r true (run +:+ rest)
  = JsString.replaceWhiteSpaceRuns_go r false rest.
Proof.
  intros Hrun Hrest. induction run as [|c run IH].
  - by apply replaceWhiteSpaceRuns_go_inRun.
  - apply Forall_cons in Hrun as [Hc Hrun]. rewrite app_String. simpl.
    rewrite Hc. by apply IH.
Qed.

(** A maximal run of white space becomes one replacement. *)
Lemma replaceWhiteSpaceRuns_run (r run rest : string) :
  run ≠ "" → allWhiteSpace run → startsWithWhiteSpace rest = false →
  JsString.replaceWhiteSpaceRuns r (run +:+ rest)
  = r +:+ JsString.replaceWhiteSpaceRuns r rest.
Proof.
  intros Hne Hrun Hrest. destruct run as [|c run]; [done|].
  apply Forall_cons in Hrun as [Hc Hrun].
  unfold JsString.replaceWhiteSpaceRuns. rewrite app_String. simpl. rewrite Hc.
  by rewrite replaceWhiteSpaceRuns_go_skip.
Qed.

(** Every other unit is kept. *)
Lemma replaceWhiteSpaceRuns_unit (r : string) (c : ascii) (rest : string) :
  JsString.isWhiteSpace c = false →
  JsString.replaceWhiteSpaceRuns r (String c rest)
  = String c (JsString.replaceWhiteSpaceRuns r rest).
Proof. unfold JsString.replaceWhiteSpaceRuns. simpl. by intros ->. Qed.

Lemma list_ascii_of_string_app (s t : string) :
  list_ascii_of_string (s +:+ t) = list_ascii_of_string s ++ list_ascii_of_string t.
Proof. induction s as [|c s IH]; [done|]. rewrite app_String. simpl. by rewrite IH. Qed.

Lemma replaceWhiteSpaceRuns_go_units (r : string) (inRun : bool) (s : string) (c : ascii) :
  c ∈ list_ascii_of_string (JsString.replaceWhiteSpaceRuns_go r inRun s) →
  c ∈ list_ascii_of_string r ∨ JsString.isWhiteSpace c = false.
Proof.
  revert inRun. induction s as [|d s IH]; intros inRun; simpl.
  - by intros ?%elem_of_nil.
  - destruct (JsString.isWhiteSpace d) eqn:Hd.
    + destruct inRun; [apply IH|].
      rewrite list_ascii_of_string_app, elem_of_app. intros [?|?]; [by left|by eapply IH].
    + simpl. rewrite elem_of_cons. intros [->|?]; [by right|by eapply IH].
Qed.

Lemma removeUnits_units (cs : list ascii) (s : string) :
  list_ascii_of_string (JsString.removeUnits cs s)
  = filter (λ c, c ∉ cs) (list_ascii_of_string s).
Proof.
  induction s as [|c s IH]; [done|]. simpl. rewrite filter_cons.
  case_bool_decide; [by rewrite decide_False by tauto|].
  rewrite decide_True by done. simpl. by rewrite IH.
Qed.

Lemma substring0_units (n : nat) (s : string) (c : ascii) :
  c ∈ list_ascii_of_string (JsString.substring0 n s) → c ∈ list_ascii_of_string s.
Proof.
  unfold JsString.substring0. revert n.
  induction s as [|d s IH]; intros [|n]; simpl; try done.
  - by intros ?%elem_of_nil.
  - rewrite !elem_of_cons. intros [->|?]; [by left|right; by eapply IH].
Qed.

Lemma default_name_clean :
  Forall (λ c, JsString.isWhiteSpace c = false ∧ c ∉ unsuitableUnits)
         (list_ascii_of_string "untitled_conversation").
Proof. apply (bool_decide_unpack _). by vm_compute. Qed.

(** C7, as the code has it. [sanitizeFilename] returns "untitled_conversation"
    for the empty name; for any other name it replaces every run of white
    space with one underscore (keeping every other unit), strips the units
    slash, backslash, question mark, percent, asterisk, colon, vertical bar,
    double quote, less-than and greater-than, and cuts the result to 100
    units, so the result has neither white space nor any of those units and
    at most 100 units; it maps "My/Chat: Plans?" to "MyChat_Plans". *)
Theorem sanitizeFilename_steps :
  sanitizeFilename "" = "untitled_conversation"
  ∧ (∀ name, name ≠ "" →
       sanitizeFilename name
       = JsString.substring0 100
           (JsString.removeUnits unsuitableUnits
              (JsString.replaceWhiteSpaceRuns "_" name)))
  ∧ (∀ run rest, run ≠ "" → allWhiteSpace run → startsWithWhiteSpace rest = false →
       JsString.replaceWhiteSpaceRuns "_" (run +:+ rest)
       = "_" +:+ JsString.replaceWhiteSpaceRuns "_" rest)
  ∧ (∀ c rest, JsString.isWhiteSpace c = false →
       JsString.replaceWhiteSpaceRuns "_" (String c rest)
       = String c (JsString.replaceWhiteSpaceRuns "_" rest))
  ∧ (∀ s, list_ascii_of_string (JsString.removeUnits unsuitableUnits s)
          = filter (λ c, c ∉ unsuitableUnits) (list_ascii_of_string s))
  ∧ (∀ name c, c ∈ list_ascii_of_string (sanitizeFilename name) →
       JsString.isWhiteSpace c = false ∧ c ∉ unsuitableUnits)
  ∧ (∀ name, String.length (sanitizeFilename name) ≤ 100)
  ∧ sanitizeFilename "My/Chat: Plans?" = "MyChat_Plans".
Proof.
  split_and!; [done| | | | | | |done].
  - intros name Hname%truthy_nonempty. unfold sanitizeFilename. by rewrite Hname.
  - intros run rest. apply replaceWhiteSpaceRuns_run.
  - intros c rest. apply replaceWhiteSpaceRuns_unit.
  - apply removeUnits_units.
  - intros name c. unfold sanitizeFilename. destruct (JsString.truthy name); simpl.
    + intros Hc%substring0_units. rewrite removeUnits_units in Hc.
      apply list_elem_of_filter in Hc as [Hc1 Hc2]. split; [|done].
      apply replaceWhiteSpaceRuns_go_units in Hc2 as [Hc2|Hc2]; [|done].
      apply list_elem_of_singleton in Hc2 as ->. done.
    + intros Hc. by apply (proj1 (Forall_forall _ _) default_name_clean).
  - intros name. unfold sanitizeFilename. destruct (JsString.truthy name); simpl.
    + apply substring0_length.
    + lia.
Qed.

(** The statement of C7 fails on its own example, where the slash is
    stripped and not turned into an underscore, and on a name made of
    stripped units only, which gives the empty string. *)
Lemma sanitizeFilename_example_differs :
  sanitizeFilename "My/Chat: Plans?" ≠ "My_Chat_Plans"
  ∧ sanitizeFilename "?" = ""
  ∧ sanitizeFilename "?" ≠ "untitled_conversation".
Proof. split_and!; [discriminate|reflexivity|discriminate]. Qed.

(** ** C8: the round trip through the bulk export *)



Lemma elem_of_selectAll (sel : gset string) (visible : list ProcessedConversation.t)
    (id : string) :
  id ∈ foldl (λ newSet conv, newSet ∪ {[ProcessedConversation.id conv]}) sel visible
  ↔ id ∈ sel ∨ ∃ conv, conv ∈ visible ∧ ProcessedConversation.id conv = id.
Proof.
  revert sel. induction visible as [|conv visible IH]; intros sel; simpl.
  - split; [by left|]. intros [?|(conv & Hconv%elem_of_nil & _)]; done.
  - rewrite IH, elem_of_union, elem_of_singleton. split.
    + intros [[? | ->]|(conv' & ? & ?)]; [by left|right|right].
      * exists conv. split; [left|done].
      * exists conv'. split; [by right|done].
    + intros [?|(conv' & [-> | ?]%elem_of_cons & <-)]; [by left;left|by left;right|].
      right. by exists conv'.
Qed.

Lemma filter_selected_all (sel : gset string) (convs : list ProcessedConversation.t) :
  (∀ conv, conv ∈ convs → ProcessedConversation.id conv ∈ sel) →
  filter (λ conv, ProcessedConversation.id conv ∈ sel) convs = convs.
Proof.
  intros Hall. induction convs as [|conv convs IH]; [done|].
  rewrite filter_cons_True by (apply Hall; left).
  f_equal. apply IH. intros conv' ?. apply Hall. by right.
Qed.

Section RoundTrip.
Variable JSON_parse : string → string + JsonData.
Variable JSON_stringify : list RawConversation.t → string.

(** With an empty query, selecting all and exporting the selection hands
    the raw records of every processed conversation to [JSON.stringify]. *)
Lemma export_after_select_all (convs : list RawConversation.t) (st : AppState.t) :
  AppState.searchTerm st = "" →
  handleExportSelected JSON_stringify
    (handleSelectAllVisible (uploadParsed (JsonArray convs) st))
  = exportConversations JSON_stringify (parseArray convs) "selected_collection.json".
Proof.
  intros Hquery. unfold handleExportSelected, handleSelectAllVisible, uploadParsed.
  unfold filterEffect, onloadParsed, handleFileUpload. simpl. rewrite Hquery. simpl.
  rewrite filter_selected_all; [done|].
  intros conv Hconv. apply elem_of_selectAll. right. by exists conv.
Qed.


(** Without a surviving record the export stops at its notice; with one it
    produces the file. *)
Lemma export_after_select_all_alerts (convs : list RawConversation.t) (st : AppState.t) :
  AppState.searchTerm st = "" →
  handleExportSelected JSON_stringify
    (handleSelectAllVisible (uploadParsed (JsonArray convs) st))
  = Alerted "No conversations to export for this selection."
  ↔ parseArray convs = [].
Proof.
  intros Hquery. rewrite export_after_select_all by done.
  unfold exportConversations. by destruct (parseArray convs).
Qed.

End RoundTrip.


(** * Further properties *)

(** ** The summary *)

Lemma length_app_string (s t : string) :
  String.length (s +:+ t) = String.length s + String.length t.
Proof. induction s as [|c s IH]; [done|]. rewrite app_String. simpl. by rewrite IH. Qed.

Lemma toLowerCase_length (s : string) :
  String.length (JsString.toLowerCase s) = String.length s.
Proof. induction s as [|c s IH]; [done|]. simpl. by rewrite IH. Qed.

Lemma truncate_length (n : nat) (s : string) : String.length (truncate n s) ≤ n + 3.
Proof.
  unfold truncate. rewrite length_app_string.
  pose proof (substring0_length n s). destruct (n <? String.length s); simpl; lia.
Qed.

Lemma truncate_nonempty (n : nat) (s : string) : s ≠ "" → truncate (S n) s ≠ "".
Proof.
  destruct s as [|c s]; [done|]. intros _.
  unfold truncate, JsString.substring0. cbn [substring]. by rewrite app_String.
Qed.

Lemma isGenericTitle_length (title : string) :
  isGenericTitle title → String.length title ≤ 21.
Proof.
  unfold isGenericTitle. rewrite <- (toLowerCase_length title).
  rewrite !elem_of_cons, elem_of_nil. intros [-> | [-> | [-> | []]]]; simpl; lia.
Qed.

Lemma find_hasRoleAndText_text (role : string) (messages : list Message.t) (m : Message.t) :
  List.find (hasRoleAndText role) messages = Some m → Message.contentText m ≠ "".
Proof. intros [_ Hm]%find_some. by apply hasRoleAndText_spec in Hm as [_ ?]. Qed.

(** X1. With an empty or generic title and no user message with text, the
    summary is the text of the first assistant message with text, cut to 100
    units; with no such message either it is the title, and "No summary
    available" when the title is empty. *)
Theorem generateSummary_last_fallbacks (title : string) (messages : list Message.t) :
  title = "" ∨ isGenericTitle title →
  Forall (λ x, ¬ hasRoleWithText "user" x) messages →
  (∀ m, firstSuchThat (hasRoleWithText "assistant") messages m →
        truncatedTo 100 (Message.contentText m) (generateSummary title messages))
  ∧ (Forall (λ x, ¬ hasRoleWithText "assistant" x) messages →
     generateSummary title messages
     = if decide (title = "") then "No summary available" else title).
Proof.
  intros Hrule1 Huser%find_none_no_role.
  rewrite generateSummary_fallbacks, Huser by done. split.
  - intros m Hm%find_firstSuchThat. rewrite Hm. apply truncate_truncatedTo.
  - intros Hassistant%find_none_no_role. rewrite Hassistant.
    by destruct title.
Qed.

Lemma generateSummary_last_fallbacks_witness :
  generateSummary "Empty Chat"
    [ {| Message.id := "m1"; Message.authorRole := "tool";
         Message.contentText := "log"; Message.createTime := None |} ]
  = "Empty Chat".
Proof.
  refine (proj2 (generateSummary_last_fallbacks "Empty Chat" _ _ _) _).
  - right. by vm_compute; apply list_elem_of_further, list_elem_of_here.
  - repeat constructor. by intros [[=] _].
  - repeat constructor. by intros [[=] _].
Defined.

(** X2. A summary is never empty and never longer than 153 units. *)
Theorem generateSummary_bounds (title : string) (messages : list Message.t) :
  generateSummary title messages ≠ ""
  ∧ String.length (generateSummary title messages) ≤ 153.
Proof.
  unfold generateSummary.
  destruct (JsString.truthy title) eqn:Htitle; simpl.
  - apply truthy_nonempty in Htitle.
    case_bool_decide as Hgeneric; simpl.
    + change (JsString.toLowerCase title ∈ genericTitles)
        with (isGenericTitle title) in Hgeneric.
      apply isGenericTitle_length in Hgeneric.
      destruct (List.find (hasRoleAndText "user") messages) as [m|] eqn:Huser.
      { split; [by eapply truncate_nonempty, find_hasRoleAndText_text|].
        pose proof (truncate_length 100 (Message.contentText m)). lia. }
      destruct (List.find (hasRoleAndText "assistant") messages) as [m|] eqn:Hassistant.
      { split; [by eapply truncate_nonempty, find_hasRoleAndText_text|].
        pose proof (truncate_length 100 (Message.contentText m)). lia. }
      split; [done|lia].
    + split; [by apply truncate_nonempty|].
      pose proof (truncate_length 150 title). lia.
  - destruct (List.find (hasRoleAndText "user") messages) as [m|] eqn:Huser.
    { split; [by eapply truncate_nonempty, find_hasRoleAndText_text|].
      pose proof (truncate_length 100 (Message.contentText m)). lia. }
    destruct (List.find (hasRoleAndText "assistant") messages) as [m|] eqn:Hassistant.
    { split; [by eapply truncate_nonempty, find_hasRoleAndText_text|].
      pose proof (truncate_length 100 (Message.contentText m)). lia. }
    split; [done|simpl; lia].
Qed.

(** ** The normalizer *)

Lemma list_ascii_of_string_rev_app (s t : string) :
  list_ascii_of_string (String.rev_app s t)
  = reverse (list_ascii_of_string s) ++ list_ascii_of_string t.
Proof.
  revert t. induction s as [|c s IH]; intros t; [done|]. simpl.
  rewrite IH, reverse_cons, <- app_assoc. done.
Qed.

Lemma list_ascii_of_string_rev (s : string) :
  list_ascii_of_string (String.rev s) = reverse (list_ascii_of_string s).
Proof. unfold String.rev. by rewrite list_ascii_of_string_rev_app, app_nil_r. Qed.

Lemma list_ascii_of_string_nil (s : string) : list_ascii_of_string s = [] ↔ s = "".
Proof. by destruct s. Qed.

Lemma trimStart_empty (s : string) : JsString.trimStart s = "" ↔ allWhiteSpace s.
Proof.
  unfold allWhiteSpace. induction s as [|c s IH]; simpl.
  - split; [constructor|done].
  - rewrite Forall_cons. destruct (JsString.isWhiteSpace c).
    + rewrite IH. tauto.
    + split; [done|]. by intros [? _].
Qed.

Lemma trimStart_allWhiteSpace (s : string) :
  allWhiteSpace (JsString.trimStart s) ↔ allWhiteSpace s.
Proof.
  unfold allWhiteSpace. induction s as [|c s IH]; simpl; [done|].
  destruct (JsString.isWhiteSpace c) eqn:Hc; [|done].
  rewrite IH, Forall_cons. tauto.
Qed.

(** [trim] leaves nothing exactly of the strings of white space. *)
Lemma trim_empty (s : string) : JsString.trim s = "" ↔ allWhiteSpace s.
Proof.
  unfold JsString.trim.
  rewrite <- list_ascii_of_string_nil, list_ascii_of_string_rev.
  rewrite <- (reverse_nil (A := ascii)), (inj_iff reverse).
  rewrite list_ascii_of_string_nil, trimStart_empty.
  rewrite <- (trimStart_allWhiteSpace s). unfold allWhiteSpace.
  by rewrite list_ascii_of_string_rev, Forall_reverse.
Qed.

Lemma nodeMessage_Some (node : option RawChatNode.t) (m : Message.t) :
  nodeMessage node = Some m →
  ∃ nd message content,
    node = Some nd
    ∧ RawChatNode.message nd = Some message
    ∧ RawChatMessage.content message = Some content
    ∧ hasPartsOrText content = true
    ∧ isVisuallyHidden message = false
    ∧ JsString.trim (textContent content) ≠ ""
    ∧ m = {|
        Message.id := RawChatMessage.id message;
        Message.authorRole := RawChatMessageAuthor.role (RawChatMessage.author message);
        Message.contentText := textContent content;
        Message.createTime := JsNumber.orUndefined (RawChatMessage.create_time message)
      |}.
Proof.
  unfold nodeMessage. destruct node as [nd|]; [|done].
  destruct (RawChatNode.message nd) as [message|] eqn:Hmessage; [|done].
  destruct (RawChatMessage.content message) as [content|] eqn:Hcontent; [|done].
  destruct (hasPartsOrText content) eqn:Hparts; [|done].
  destruct (isVisuallyHidden message) eqn:Hhidden; [done|].
  case_bool_decide as Htrim; [done|]. intros [= <-].
  by exists nd, message, content.
Qed.

Lemma orUndefined_not_zero (x : option number) : JsNumber.orUndefined x ≠ Some 0%Qc.
Proof.
  destruct x as [n|]; [|done]. unfold JsNumber.orUndefined, JsNumber.truthy.
  case_bool_decide; [|done]. by intros [= ->].
Qed.

(** X3. Every message of a normalized conversation has a text with at least
    one unit that is not white space, and a [createTime] that is absent or
    different from 0. *)
Theorem normalized_messages_have_text
    (convs : list RawConversation.t) (pc : ProcessedConversation.t) (m : Message.t) :
  pc ∈ parseArray convs →
  m ∈ ProcessedConversation.messages pc →
  ¬ allWhiteSpace (Message.contentText m)
  ∧ Message.contentText m ≠ ""
  ∧ Message.createTime m ≠ Some 0%Qc.
Proof.
  intros (mapping & _ & ->)%parseArray_messages.
  rewrite (Array_sort_Permutation timestamp _ compareMessages_timestamp).
  intros (node & _ & Hm)%list_elem_of_omap.
  apply nodeMessage_Some in Hm as (nd & message & content & _ & _ & _ & _ & _ & Htrim & ->).
  cbn [Message.contentText Message.createTime].
  rewrite trim_empty in Htrim. split_and!; [done| |apply orUndefined_not_zero].
  intros Hempty. apply Htrim. rewrite Hempty. constructor.
Qed.

Lemma normalized_messages_have_text_witness :
  ∃ m, m ∈ ProcessedConversation.messages Sample.processed3
       ∧ Message.contentText m = "How are you?"
       ∧ ¬ allWhiteSpace (Message.contentText m).
Proof.
  eexists. split; [by vm_compute; apply list_elem_of_here|]. split; [reflexivity|].
  refine (proj1 (normalized_messages_have_text Sample.archive Sample.processed3 _ _ _)).
  - vm_compute. apply list_elem_of_further, list_elem_of_here.
  - vm_compute. apply list_elem_of_here.
Defined.

(** X4. A normalized conversation carries the identifier of its record,
    which is not empty, so the generated identifier is never used; its title
    is not empty (the one of the record, or the placeholder); its times are
    those of the record; it keeps the record itself, which is one of the
    archive; and its export file is named after its title, never after its
    identifier. *)
Theorem normalized_conversation_fields
    (convs : list RawConversation.t) (pc : ProcessedConversation.t) :
  pc ∈ parseArray convs →
  let conv := ProcessedConversation.originalData pc in
  conv ∈ convs
  ∧ RawConversation.id conv = Some (ProcessedConversation.id pc)
  ∧ ProcessedConversation.id pc ≠ ""
  ∧ ProcessedConversation.title pc ≠ ""
  ∧ (∀ title, RawConversation.title conv = Some title → title ≠ "" →
              ProcessedConversation.title pc = title)
  ∧ ProcessedConversation.createTime pc = RawConversation.create_time conv
  ∧ ProcessedConversation.updateTime pc = RawConversation.update_time conv
  ∧ exportFilename pc
    = "ChatTown_Obsidian_" +:+ sanitizeFilename (ProcessedConversation.title pc) +:+ ".txt".
Proof.
  intros (conv & Hconv & Hpc)%elem_of_parseArray.
  apply processConversation_Some in Hpc as (id & mapping & Hid & Hne & _ & ->).
  cbn zeta. unfold exportFilename.
  cbn [ProcessedConversation.originalData ProcessedConversation.id
       ProcessedConversation.title ProcessedConversation.createTime
       ProcessedConversation.updateTime].
  assert (JsString.orElse (RawConversation.title conv) "Untitled Conversation" ≠ "")
    as Htitle.
  { unfold JsString.orElse. destruct (RawConversation.title conv) as [[|c t]|]; done. }
  split_and!; try done.
  - intros title -> Ht. by destruct title.
  - apply truthy_nonempty in Htitle. by rewrite Htitle.
Qed.

Lemma normalized_conversation_fields_witness :
  exportFilename Sample.processed1 = "ChatTown_Obsidian_New_chat.txt".
Proof.
  assert (Sample.processed1 ∈ parseArray Sample.archive) as Hin
    by (vm_compute; apply list_elem_of_here).
  pose proof (normalized_conversation_fields Sample.archive Sample.processed1 Hin) as H.
  cbn zeta in H. destruct H as (_ & _ & _ & _ & _ & _ & _ & ->). reflexivity.
Defined.

(** X5. When [content.parts] is present, [content.text] is never looked at:
    the text of the message is the concatenation of the parts, and a node
    whose parts are empty or blank pushes nothing, whatever its [text]. *)
Theorem parts_shadow_text
    (nd : RawChatNode.t) (message : RawChatMessage.t) (content : RawChatMessageContent.t)
    (parts : list string) :
  RawChatNode.message nd = Some message →
  RawChatMessage.content message = Some content →
  RawChatMessageContent.parts content = Some parts →
  (∀ m, nodeMessage (Some nd) = Some m → Message.contentText m = JsString.join parts)
  ∧ (allWhiteSpace (JsString.join parts) → nodeMessage (Some nd) = None).
Proof.
  intros Hmessage Hcontent Hparts. split.
  - intros m (? & ? & ? & [= <-] & Hm & Hc & _ & _ & _ & ->)%nodeMessage_Some.
    simplify_eq. cbn [Message.contentText]. unfold textContent. by rewrite Hparts.
  - intros Hblank%trim_empty. unfold nodeMessage. rewrite Hmessage, Hcontent.
    unfold textContent. rewrite Hparts, Hblank.
    by destruct (hasPartsOrText content), (isVisuallyHidden message).
Qed.

Lemma parts_shadow_text_witness :
  nodeMessage (Some Sample.emptyPartsNode) = None.
Proof.
  refine (proj2 (parts_shadow_text Sample.emptyPartsNode Sample.emptyPartsMessage
                   Sample.emptyPartsContent [] eq_refl eq_refl eq_refl) _).
  constructor.
Defined.

(** X6. The message list of a normalized conversation is the only
    arrangement of the messages of its nodes that is sorted by time and
    keeps the mapping order among equal times; in particular, when the nodes
    come in order of time, the messages come in the order of the mapping. *)
Theorem messages_only_stable_arrangement
    (convs : list RawConversation.t) (pc : ProcessedConversation.t)
    (mapping : list (string * option RawChatNode.t)) (arranged : list Message.t) :
  pc ∈ parseArray convs →
  RawConversation.mapping (ProcessedConversation.originalData pc) = Some mapping →
  StronglySorted (keyLe timestamp) arranged →
  (∀ t, filter (λ m, timestamp m = t) arranged
        = filter (λ m, timestamp m = t) (omap nodeMessage (Object_values mapping))) →
  ProcessedConversation.messages pc = arranged.
Proof.
  intros (mapping' & Hmapping & ->)%parseArray_messages Hmapping' Hsorted Hstable.
  rewrite Hmapping in Hmapping'. injection Hmapping' as ->. symmetry.
  by apply (Array_sort_unique timestamp), Hstable; [apply compareMessages_timestamp|].
Qed.

Lemma messages_only_stable_arrangement_witness :
  ProcessedConversation.messages Sample.processed1 = Sample.arranged1.
Proof.
  apply (messages_only_stable_arrangement Sample.archive Sample.processed1 Sample.mapping1).
  - vm_compute. apply list_elem_of_here.
  - reflexivity.
  - repeat constructor; by vm_compute.
  - intros t.
    change (omap nodeMessage (Object_values Sample.mapping1)) with Sample.pushed1.
    unfold Sample.arranged1, Sample.pushed1. rewrite !filter_cons, !filter_nil.
    assert (timestamp Sample.messageD ≠ timestamp Sample.messageB) as HDB
      by (intros H%Qceq_alt; by vm_compute in H).
    assert (timestamp Sample.messageD ≠ timestamp Sample.messageC) as HDC
      by (intros H%Qceq_alt; by vm_compute in H).
    assert (timestamp Sample.messageB ≠ timestamp Sample.messageC) as HBC
      by (intros H%Qceq_alt; by vm_compute in H).
    change (timestamp Sample.messageE) with (timestamp Sample.messageD).
    destruct (decide (timestamp Sample.messageD = t)) as [HD|HD],
             (decide (timestamp Sample.messageB = t)) as [HB|HB],
             (decide (timestamp Sample.messageC = t)) as [HC|HC];
      try reflexivity; exfalso; congruence.
Defined.

Lemma parseArray_app (convs1 convs2 : list RawConversation.t) :
  parseArray (convs1 ++ convs2) = parseArray convs1 ++ parseArray convs2.
Proof. rewrite !parseArray_omap. apply omap_app. Qed.

(** X7. Records are normalized independently of each other and of their
    position: the result for an archive made of two pieces is the result for
    the first piece followed by the result for the second, a record that
    is skipped leaves no trace, and a record that survives contributes
    exactly one conversation. *)
Theorem records_normalized_independently
    (convs1 convs2 : list RawConversation.t) (conv : RawConversation.t) :
  parseArray (convs1 ++ convs2) = parseArray convs1 ++ parseArray convs2
  ∧ (hasIdAndMapping conv = false →
     parseArray (convs1 ++ conv :: convs2) = parseArray (convs1 ++ convs2))
  ∧ (hasIdAndMapping conv = true →
     ∃ pc, ProcessedConversation.originalData pc = conv
           ∧ parseArray (convs1 ++ conv :: convs2)
             = parseArray convs1 ++ pc :: parseArray convs2).
Proof.
  split_and!; [apply parseArray_app| |].
  - intros Hskip. rewrite !parseArray_app. f_equal.
    rewrite !parseArray_omap. cbn [omap list_omap].
    destruct (processConversation 0 conv) as [pc|] eqn:Hpc; [|done].
    assert (hasIdAndMapping conv = true) as Hkeep
      by (apply (processConversation_is_Some 0); by rewrite Hpc).
    congruence.
  - intros Hkeep%(processConversation_is_Some 0). destruct Hkeep as [pc Hpc].
    exists pc. split.
    + by apply processConversation_Some in Hpc as (? & ? & _ & _ & _ & ->).
    + rewrite !parseArray_app. f_equal. rewrite !parseArray_omap.
      cbn [omap list_omap]. by rewrite Hpc.
Qed.

(** ** File names *)

Lemma sanitizeFilename_units (name : string) (c : ascii) :
  c ∈ list_ascii_of_string (sanitizeFilename name) →
  JsString.isWhiteSpace c = false ∧ c ∉ unsuitableUnits.
Proof.
  unfold sanitizeFilename. destruct (JsString.truthy name); simpl.
  - intros Hc%substring0_units. rewrite removeUnits_units in Hc.
    apply list_elem_of_filter in Hc as [Hc1 Hc2]. split; [|done].
    apply replaceWhiteSpaceRuns_go_units in Hc2 as [Hc2|Hc2]; [|done].
    by apply list_elem_of_singleton in Hc2 as ->.
  - intros Hc. by apply (proj1 (Forall_forall _ _) default_name_clean).
Qed.

Lemma sanitizeFilename_length (name : string) :
  String.length (sanitizeFilename name) ≤ 100.
Proof.
  unfold sanitizeFilename. destruct (JsString.truthy name); simpl;
    [apply substring0_length|lia].
Qed.

Lemma replaceWhiteSpaceRuns_go_id (r : string) (inRun : bool) (s : string) :
  Forall (λ c, JsString.isWhiteSpace c = false) (list_ascii_of_string s) →
  JsString.replaceWhiteSpaceRuns_go r inRun s = s.
Proof.
  revert inRun. induction s as [|c s IH]; intros inRun Hs; [done|]. simpl in *.
  apply Forall_cons in Hs as [-> Hs]. by rewrite IH.
Qed.

Lemma removeUnits_id (cs : list ascii) (s : string) :
  Forall (λ c, c ∉ cs) (list_ascii_of_string s) → JsString.removeUnits cs s = s.
Proof.
  induction s as [|c s IH]; intros Hs; [done|]. simpl in *.
  apply Forall_cons in Hs as [Hc Hs]. rewrite bool_decide_eq_false_2 by done.
  by rewrite IH.
Qed.

(** X8. A sanitized name that is not empty is a fixed point: sanitizing it
    again changes nothing. *)
Theorem sanitizeFilename_idempotent (name : string) :
  sanitizeFilename name ≠ "" →
  sanitizeFilename (sanitizeFilename name) = sanitizeFilename name.
Proof.
  intros Hne%truthy_nonempty. unfold sanitizeFilename at 1. rewrite Hne. simpl.
  unfold JsString.replaceWhiteSpaceRuns.
  rewrite replaceWhiteSpaceRuns_go_id, removeUnits_id.
  - apply substring0_short, sanitizeFilename_length.
  - apply Forall_forall. intros c Hc. by apply (sanitizeFilename_units name).
  - apply Forall_forall. intros c Hc. by apply (sanitizeFilename_units name).
Qed.

Lemma sanitizeFilename_idempotent_witness :
  sanitizeFilename (sanitizeFilename "a  b/c") = "a_bc".
Proof.
  assert (sanitizeFilename "a  b/c" = "a_bc") as Hfirst by reflexivity.
  rewrite (sanitizeFilename_idempotent "a  b/c") by (by rewrite Hfirst).
  exact Hfirst.
Defined.

(** X9. Whatever the conversation, the name of its text export has no white
    space, none of the stripped units, and at most 122 units. *)
Theorem exportFilename_clean (conversation : ProcessedConversation.t) :
  Forall (λ c, JsString.isWhiteSpace c = false ∧ c ∉ unsuitableUnits)
         (list_ascii_of_string (exportFilename conversation))
  ∧ String.length (exportFilename conversation) ≤ 122.
Proof.
  unfold exportFilename. split.
  - rewrite !list_ascii_of_string_app, !Forall_app. split_and!.
    + apply (bool_decide_unpack _). by vm_compute.
    + apply Forall_forall. intros c. apply sanitizeFilename_units.
    + apply (bool_decide_unpack _). by vm_compute.
  - rewrite !length_app_string.
    match goal with |- context [sanitizeFilename ?n] =>
      pose proof (sanitizeFilename_length n) end.
    simpl. lia.
Qed.

(** ** Uploads *)

(** X10. An upload keeps nothing of the state before it but the search
    term: it leaves the state that the same upload leaves when it is the
    first thing done with that term in the search box. *)
Theorem upload_forgets_previous_state
    (JSON_parse : string → string + JsonData) (text : string) (st : AppState.t) :
  upload JSON_parse text st
  = upload JSON_parse text (setSearchTerm (AppState.searchTerm st) initialState).
Proof.
  unfold upload, onload.
  destruct (JSON_parse text) as [message|[convs|]]; reflexivity.
Qed.


(** ** The displayed conversations *)

Lemma prefix_occurs (t s : string) :
  String.prefix t s = true ↔ ∃ after, s = t +:+ after.
Proof.
  revert s. induction t as [|c t IH]; intros s.
  - split; [intros _; exists s; reflexivity|intros _; by destruct s].
  - destruct s as [|d s]; simpl.
    + split; [done|]. intros [after Hs]. rewrite app_String in Hs. discriminate.
    + destruct (ascii_dec c d) as [->|Hcd].
      * rewrite IH. split; intros [after Hs]; exists after.
        -- rewrite app_String. by f_equal.
        -- rewrite app_String in Hs. by injection Hs.
      * split; [done|]. intros [after Hs]. rewrite app_String in Hs.
        injection Hs as ? ?. by destruct Hcd.
Qed.

Lemma includes_empty (t : string) :
  JsString.includes t "" = String.prefix t "" || false.
Proof. reflexivity. Qed.

Lemma includes_String (t : string) (d : ascii) (s : string) :
  JsString.includes t (String d s) = String.prefix t (String d s) || JsString.includes t s.
Proof. reflexivity. Qed.

(** [includes] finds exactly the blocks of consecutive units. *)
Lemma includes_occursIn (t s : string) :
  JsString.includes t s = true ↔ occursIn t s.
Proof.
  unfold occursIn. induction s as [|d s IH].
  - rewrite includes_empty, orb_false_r, prefix_occurs. split.
    + intros [after Hs]. exists "", after. exact Hs.
    + intros ([|??] & after & Hs); [exists after; exact Hs|].
      rewrite app_String in Hs. discriminate.
  - rewrite includes_String, orb_true_iff, prefix_occurs, IH. split.
    + intros [[after Hs]|(before & after & Hs)].
      * exists "", after. exact Hs.
      * exists (String d before), after. rewrite app_String. by f_equal.
    + intros ([|c before] & after & Hs).
      * left. exists after. exact Hs.
      * right. exists before, after. rewrite app_String in Hs. by injection Hs.
Qed.

Lemma matchesSearch_mentions (query : string) (conv : ProcessedConversation.t) :
  matchesSearch query conv = true ↔ mentions query conv.
Proof.
  unfold matchesSearch, mentions.
  rewrite !orb_true_iff, !includes_occursIn, existsb_exists.
  setoid_rewrite includes_occursIn. setoid_rewrite <- list_elem_of_In. tauto.
Qed.

(** X12. After a render, the displayed conversations are processed ones, in
    their order; all of them when the search box is empty; otherwise exactly
    those that mention the lower-cased search term in their title, summary
    or messages, case being ignored. *)
Theorem displayed_conversations (st : AppState.t) :
  let st' := filterEffect st in
  AppState.filteredConversations st' `sublist_of` AppState.processedConversations st
  ∧ Stats.displayed (stats st') ≤ Stats.processed (stats st')
  ∧ (AppState.searchTerm st = "" →
     AppState.filteredConversations st' = AppState.processedConversations st)
  ∧ (AppState.searchTerm st ≠ "" →
     ∀ conv, conv ∈ AppState.filteredConversations st'
             ↔ conv ∈ AppState.processedConversations st
               ∧ mentions (JsString.toLowerCase (AppState.searchTerm st)) conv).
Proof.
  intros st'. unfold st', filterEffect, stats. simpl.
  destruct (JsString.truthy (AppState.searchTerm st)) eqn:Hquery; simpl.
  - apply truthy_nonempty in Hquery.
    split_and!; [apply sublist_filter|apply length_filter|done|].
    intros _ conv. rewrite list_elem_of_filter, Is_true_true, matchesSearch_mentions.
    tauto.
  - split_and!; [done|done|done|].
    intros Hne. apply truthy_nonempty in Hne. congruence.
Qed.

Lemma app_string_assoc (s t u : string) : (s +:+ t) +:+ u = s +:+ (t +:+ u).
Proof. induction s as [|c s IH]; [done|]. by rewrite !app_String, IH. Qed.

Lemma occursIn_shorter (t extra s : string) : occursIn (t +:+ extra) s → occursIn t s.
Proof.
  intros (before & after & ->). exists before, (extra +:+ after).
  by rewrite app_string_assoc.
Qed.

Lemma mentions_shorter (query extra : string) (conv : ProcessedConversation.t) :
  mentions (query +:+ extra) conv → mentions query conv.
Proof.
  unfold mentions. intros [H|[H|(msg & Hmsg & H)]].
  - left. by eapply occursIn_shorter.
  - right. left. by eapply occursIn_shorter.
  - right. right. exists msg. split; [done|]. by eapply occursIn_shorter.
Qed.

Lemma filter_sublist_mono {A : Type} (P Q : A → Prop)
    `{!∀ x, Decision (P x), !∀ x, Decision (Q x)} (l : list A) :
  (∀ x, P x → Q x) → filter P l `sublist_of` filter Q l.
Proof.
  intros HPQ. induction l as [|x l IH]; [done|]. rewrite !filter_cons.
  destruct (decide (P x)) as [HP|HP].
  - rewrite decide_True by auto. by apply sublist_skip.
  - destruct (decide (Q x)); [by apply sublist_cons|done].
Qed.

(** X13. Narrowing the lower-cased search term can only take conversations
    off the display: when the lower-case form of one term is the lower-case
    form of another followed by further units, what is displayed for the
    first is displayed, in the same order, for the second. *)
Theorem narrower_search_term_shows_less (query1 query2 extra : string) (st : AppState.t) :
  JsString.toLowerCase query2 = JsString.toLowerCase query1 +:+ extra →
  AppState.filteredConversations (filterEffect (setSearchTerm query2 st))
  `sublist_of`
  AppState.filteredConversations (filterEffect (setSearchTerm query1 st)).
Proof.
  intros Hlower. unfold filterEffect, setSearchTerm.
  cbn [AppState.searchTerm AppState.processedConversations
       AppState.filteredConversations].
  rewrite Hlower. destruct query1 as [|c query1].
  - cbn [negb JsString.truthy].
    destruct (JsString.truthy query2); cbn [negb]; [apply sublist_filter|done].
  - destruct query2 as [|d query2]; [simpl in Hlower; discriminate|].
    cbn [negb JsString.truthy]. apply filter_sublist_mono. intros conv.
    rewrite !Is_true_true, !matchesSearch_mentions. apply mentions_shorter.
Qed.

Lemma narrower_search_term_shows_less_witness :
  AppState.filteredConversations
    (filterEffect (setSearchTerm "HOW ARE" (uploadParsed (JsonArray Sample.archive) initialState)))
  `sublist_of`
  AppState.filteredConversations
    (filterEffect (setSearchTerm "How" (uploadParsed (JsonArray Sample.archive) initialState))).
Proof. apply (narrower_search_term_shows_less "How" "HOW ARE" " are"). reflexivity. Defined.

(** ** The selection *)

(** X14. Toggling the same identifier twice gives back the state. *)
Theorem toggleSelection_twice (id : string) (st : AppState.t) :
  toggleSelection id (toggleSelection id st) = st.
Proof.
  destruct st as [raw processed filtered sel term loading err count].
  unfold toggleSelection, setSelection. simpl. f_equal.
  destruct (decide (id ∈ sel)) as [Hin|Hout].
  - rewrite (bool_decide_eq_true_2 _ Hin).
    rewrite bool_decide_eq_false_2.
    + apply set_eq. intros x.
      rewrite elem_of_union, elem_of_difference, elem_of_singleton.
      split; [by intros [[? _]| ->]|].
      intros Hx. destruct (decide (x = id)); [by right|by left].
    + rewrite elem_of_difference, elem_of_singleton. by intros [_ []].
  - rewrite (bool_decide_eq_false_2 _ Hout).
    rewrite bool_decide_eq_true_2.
    + apply set_eq. intros x.
      rewrite elem_of_difference, elem_of_union, elem_of_singleton.
      split; [by intros [[?|?] ?]|].
      intros Hx. split; [by left|]. by intros ->.
    + rewrite elem_of_union, elem_of_singleton. by right.
Qed.

(** X15. Select All Visible adds the identifiers of the displayed
    conversations to the selection and removes none; it touches nothing else
    of the state, and clicking it again changes nothing. *)
Theorem handleSelectAllVisible_adds_visible (st : AppState.t) :
  let st' := handleSelectAllVisible st in
  (∀ id, id ∈ AppState.selectedConversationIds st'
         ↔ id ∈ AppState.selectedConversationIds st
           ∨ ∃ conv, conv ∈ AppState.filteredConversations st
                     ∧ ProcessedConversation.id conv = id)
  ∧ setSelection (AppState.selectedConversationIds st) st' = st
  ∧ handleSelectAllVisible st' = st'.
Proof.
  intros st'. unfold st', handleSelectAllVisible.
  destruct st as [raw processed filtered sel term loading err count].
  unfold setSelection. simpl. split_and!.
  - intros id. apply elem_of_selectAll.
  - done.
  - f_equal. apply set_eq. intros id. rewrite !elem_of_selectAll. tauto.
Qed.

(** ** The two bulk exports *)

Lemma exportConversations_alerts (JSON_stringify : list RawConversation.t → string)
    (convs : list ProcessedConversation.t) (filename : string) :
  exportConversations JSON_stringify convs filename
  = Alerted "No conversations to export for this selection."
  ↔ convs = [].
Proof. unfold exportConversations. by destruct convs. Qed.

(** X16. The two bulk exports split the processed conversations between
    them: each export takes its conversations in their order, a conversation
    goes to Export Selected when its identifier is selected and to Export
    Unselected otherwise, so conversations that share an identifier go
    together and none is lost or doubled; and an export shows its notice,
    instead of producing a file, exactly when its share is empty. *)
Theorem exports_split_processed
    (JSON_stringify : list RawConversation.t → string) (st : AppState.t) :
  ∃ selected unselected,
    handleExportSelected JSON_stringify st
    = exportConversations JSON_stringify selected "selected_collection.json"
    ∧ handleExportUnselected JSON_stringify st
      = exportConversations JSON_stringify unselected "unselected_conversations.json"
    ∧ selected `sublist_of` AppState.processedConversations st
    ∧ unselected `sublist_of` AppState.processedConversations st
    ∧ selected ++ unselected ≡ₚ AppState.processedConversations st
    ∧ (∀ conv, conv ∈ selected
               ↔ conv ∈ AppState.processedConversations st
                 ∧ ProcessedConversation.id conv ∈ AppState.selectedConversationIds st)
    ∧ (∀ conv, conv ∈ unselected
               ↔ conv ∈ AppState.processedConversations st
                 ∧ ProcessedConversation.id conv ∉ AppState.selectedConversationIds st)
    ∧ (handleExportSelected JSON_stringify st
       = Alerted "No conversations to export for this selection." ↔ selected = [])
    ∧ (handleExportUnselected JSON_stringify st
       = Alerted "No conversations to export for this selection." ↔ unselected = []).
Proof.
  unfold handleExportSelected, handleExportUnselected.
  eexists _, _. split; [reflexivity|]. split; [reflexivity|].
  split_and!.
  - apply sublist_filter.
  - apply sublist_filter.
  - apply (filter_app_complement
             (λ conv, ProcessedConversation.id conv ∈ AppState.selectedConversationIds st)).
  - intros conv. rewrite list_elem_of_filter. tauto.
  - intros conv. rewrite list_elem_of_filter. tauto.
  - apply exportConversations_alerts.
  - apply exportConversations_alerts.
Qed.

(** ** What every reachable state satisfies *)

Lemma filterEffect_nothing (st : AppState.t) :
  AppState.processedConversations st = [] →
  AppState.filteredConversations (filterEffect st) = [].
Proof.
  unfold filterEffect. simpl. intros ->.
  by destruct (JsString.truthy (AppState.searchTerm st)).
Qed.

Lemma parseArray_length (convs : list RawConversation.t) :
  length (parseArray convs) ≤ length convs.
Proof.
  rewrite <- (length_fmap ProcessedConversation.originalData), parseArray_originalData.
  apply length_filter.
Qed.

Lemma stateInvariant_filterEffect (st : AppState.t) :
  AppState.processedConversations st = parseArray (AppState.rawConversations st) →
  AppState.initialCount st = length (AppState.processedConversations st) →
  (AppState.isLoading st = true → AppState.rawConversations st = []) →
  stateInvariant (filterEffect st).
Proof.
  intros Hprocessed Hcount Hloading. unfold stateInvariant. split_and!; try done.
  cbn [filterEffect AppState.isLoading AppState.rawConversations].
  intros Hraw%Hloading. split; [done|].
  apply filterEffect_nothing. by rewrite Hprocessed, Hraw.
Qed.

Lemma stateInvariant_step (JSON_parse : string → string + JsonData)
    (st : AppState.t) (ev : Event) :
  stateInvariant st → stateInvariant (step JSON_parse st ev).
Proof.
  intros (Hprocessed & Hcount & _ & Hloading). unfold step.
  apply stateInvariant_filterEffect; destruct ev as [|text| |value|id| |]; simpl;
    try done; try (intros Hl; by apply Hloading in Hl as [? _]).
  all: unfold onload; destruct (JSON_parse text) as [message|[convs|]]; simpl; try done.
  all: intros Hl; by apply Hloading in Hl as [? _].
Qed.

(** X17. Whatever the user does (choosing files, whose reads end in any
    order and with any outcome, typing in the search box, toggling check
    boxes, clicking the selection buttons), after every render the processed
    conversations are the normalized raw ones, the total counter equals the
    processed counter, the displayed conversations are in step with the
    search term, displayed is at most processed, processed is at most the
    number of raw records, and nothing is listed while a file is loading. *)
Theorem after_any_events (JSON_parse : string → string + JsonData) (evs : list Event) :
  let st := run JSON_parse evs initialState in
  stateInvariant st
  ∧ Stats.total (stats st) = Stats.processed (stats st)
  ∧ Stats.displayed (stats st) ≤ Stats.processed (stats st)
  ∧ Stats.processed (stats st) ≤ length (AppState.rawConversations st).
Proof.
  intros st.
  assert (stateInvariant st) as Hinv.
  { unfold st, run.
    assert (stateInvariant initialState) as Hinit by (by split_and!).
    revert Hinit. generalize initialState.
    induction evs as [|ev evs IH]; intros st0 Hst0; [done|].
    simpl. by apply IH, stateInvariant_step. }
  split; [done|]. destruct Hinv as (Hprocessed & Hcount & Hfiltered & _).
  unfold stats. cbn [Stats.total Stats.processed Stats.displayed]. split_and!.
  - done.
  - rewrite Hfiltered. apply sublist_length.
    unfold filterEffect. cbn [AppState.filteredConversations].
    destruct (JsString.truthy (AppState.searchTerm st)); simpl;
      [apply sublist_filter|done].
  - rewrite Hprocessed. apply parseArray_length.
Qed.

(** ** Selection buttons followed by an export, and the case of the query *)

Lemma filter_unselected_none (sel : gset string) (convs : list ProcessedConversation.t) :
  (∀ conv, conv ∈ convs → ProcessedConversation.id conv ∈ sel) →
  filter (λ conv, ProcessedConversation.id conv ∉ sel) convs = [].
Proof.
  intros Hall. induction convs as [|conv convs IH]; [done|].
  rewrite filter_cons_False by (intros Hout; apply Hout, Hall; left).
  apply IH. intros conv' ?. apply Hall. by right.
Qed.

Lemma filter_empty_selection (sel : gset string) (convs : list ProcessedConversation.t) :
  sel = ∅ →
  filter (λ conv, ProcessedConversation.id conv ∈ sel) convs = []
  ∧ filter (λ conv, ProcessedConversation.id conv ∉ sel) convs = convs.
Proof.
  intros Hsel. induction convs as [|conv convs [IH1 IH2]]; [done|]. split.
  - rewrite filter_cons_False; [done|]. rewrite Hsel. apply not_elem_of_empty.
  - rewrite filter_cons_True by (rewrite Hsel; apply not_elem_of_empty).
    by rewrite IH2.
Qed.

(** X18. With an empty search box, after Select All Visible the Export
    Selected button hands every processed conversation to the export and
    Export Unselected has nothing left, so it shows the notice; after Clear
    Selection it is the other way round. *)
Theorem select_all_or_none_then_export
    (JSON_stringify : list RawConversation.t → string) (st : AppState.t) :
  AppState.searchTerm st = "" →
  let all := handleSelectAllVisible (filterEffect st) in
  let none := handleClearSelection (filterEffect st) in
  handleExportSelected JSON_stringify all
  = exportConversations JSON_stringify (AppState.processedConversations st)
      "selected_collection.json"
  ∧ handleExportUnselected JSON_stringify all
    = Alerted "No conversations to export for this selection."
  ∧ handleExportSelected JSON_stringify none
    = Alerted "No conversations to export for this selection."
  ∧ handleExportUnselected JSON_stringify none
    = exportConversations JSON_stringify (AppState.processedConversations st)
        "unselected_conversations.json".
Proof.
  intros Hquery all none.
  unfold all, none, handleExportSelected, handleExportUnselected,
    handleSelectAllVisible, handleClearSelection, setSelection, filterEffect.
  cbn [AppState.selectedConversationIds AppState.processedConversations
       AppState.filteredConversations AppState.searchTerm].
  rewrite Hquery. cbn [JsString.truthy negb].
  assert (∀ conv, conv ∈ AppState.processedConversations st →
            ProcessedConversation.id conv
            ∈ foldl (λ newSet conv, newSet ∪ {[ProcessedConversation.id conv]})
                (AppState.selectedConversationIds st)
                (AppState.processedConversations st)) as Hall.
  { intros conv Hconv. apply elem_of_selectAll. right. by exists conv. }
  destruct (filter_empty_selection ∅ (AppState.processedConversations st) eq_refl)
    as [Hin Hout].
  split_and!.
  - by rewrite filter_selected_all.
  - by rewrite filter_unselected_none.
  - by rewrite Hin.
  - by rewrite Hout.
Qed.

Lemma select_all_or_none_then_export_witness :
  handleExportUnselected Sample.stringify
    (handleSelectAllVisible (filterEffect (uploadParsed (JsonArray Sample.archive) initialState)))
  = Alerted "No conversations to export for this selection.".
Proof.
  exact (proj1 (proj2 (select_all_or_none_then_export Sample.stringify
                         (uploadParsed (JsonArray Sample.archive) initialState)
                         eq_refl))).
Defined.

Lemma toLowerCase_empty (s : string) : JsString.toLowerCase s = "" ↔ s = "".
Proof. by destruct s. Qed.

(** X19. The display does not depend on the case of the search term: two
    terms with the same lower-case form display the same conversations. *)
Theorem search_ignores_case_of_term (query1 query2 : string) (st : AppState.t) :
  JsString.toLowerCase query1 = JsString.toLowerCase query2 →
  AppState.filteredConversations (filterEffect (setSearchTerm query1 st))
  = AppState.filteredConversations (filterEffect (setSearchTerm query2 st)).
Proof.
  intros Hlower. unfold filterEffect, setSearchTerm.
  cbn [AppState.searchTerm AppState.processedConversations
       AppState.filteredConversations].
  rewrite Hlower.
  assert (JsString.truthy query1 = JsString.truthy query2) as ->; [|done].
  destruct query1, query2; try done; simpl in Hlower; discriminate.
Qed.

Lemma search_ignores_case_of_term_witness :
  AppState.filteredConversations
    (filterEffect (setSearchTerm "HOW are" (uploadParsed (JsonArray Sample.archive) initialState)))
  = AppState.filteredConversations
      (filterEffect (setSearchTerm "how ARE" (uploadParsed (JsonArray Sample.archive) initialState))).
Proof. apply search_ignores_case_of_term. reflexivity. Defined.
